(** * Informatica mapping XML parser: model and verified properties

    A shallow embedding of [main.py]: the data model ([Port],
    [Transformation], [Connection], [Mapping]), the parser
    [InformaticaXMLParser], the reporter [print_mapping_summary] and the
    exporter [export_to_json].

    Conventions.
    - A Python [str] is a [string]; a character of an attribute value is a
      code point below 256.
    - [Optional[T]] is [option T]; a [dict] compared with [==] is a [gmap].
    - A Python [for] loop that appends to a list is a [foldl] whose
      accumulator is that list.
    - A call that may raise returns a sum whose right injection carries the
      exception. *)

From Stdlib Require Import Ascii.
From stdpp Require Import base option list strings gmap fin_maps pretty sorting.

(** ** Python runtime values used by the program *)

Inductive PyExn : Type :=
  | ValueError (msg : string)
  | AttributeError
  | ParseError
  | OSError.

(** *** State and exceptions

    A computation over a mutable object of type [S] that returns a value
    or raises. *)
Definition SE (S A : Type) : Type := S → (A + PyExn) * S.

Global Instance SE_ret {S} : MRet (SE S) := λ A a s, (inl a, s).
Global Instance SE_bind {S} : MBind (SE S) := λ A B k m s,
  match m s with
  | (inl a, s') => k a s'
  | (inr e, s') => (inr e, s')
  end.

Definition raise {S A} (e : PyExn) : SE S A := λ s, (inr e, s).
Definition gets {S A} (f : S → A) : SE S A := λ s, (inl (f s), s).
Definition modify {S} (f : S → S) : SE S unit := λ s, (inl tt, f s).
Definition lift {S A} (r : A + PyExn) : SE S A := λ s, (r, s).

(** Truth value of an [Optional[str]]: [None] and the empty string are
    falsy. *)
Definition truthy (v : option string) : bool :=
  match v with
  | Some (String _ _) => true
  | _ => false
  end.

(** Built-in [all] on a list of truth values. *)
Definition all (l : list bool) : bool := forallb id l.

(** *** [int(str)]

    CPython's conversion of a [str] to [int] in base 10: optional
    surrounding white space, an optional sign, then decimal digits in
    which single underscores may separate digits.  [None] stands for the
    [ValueError] the call raises. *)

Definition is_space (c : ascii) : bool :=
  let n := nat_of_ascii c in
  ((9 <=? n) && (n <=? 13) || (n =? 32) || (n =? 133) || (n =? 160))%nat.

Definition digit_value (c : ascii) : option Z :=
  let n := nat_of_ascii c in
  if ((48 <=? n) && (n <=? 57))%nat then Some (Z.of_nat n - 48)%Z else None.

Definition is_underscore (c : ascii) : bool := (nat_of_ascii c =? 95)%nat.

Fixpoint skip_spaces (s : string) : string :=
  match s with
  | String c s' => if is_space c then skip_spaces s' else s
  | EmptyString => s
  end.

(** The digit scanner of [PyLong_FromString]: [prev_us] tells whether the
    previous character was an underscore, [acc] is the value read so far
    and [n] the number of digits read so far.  It stops at the first
    character that is neither a digit nor an underscore and returns the
    value, the digit count and the unread rest. *)
Fixpoint scan_digits (s : string) (prev_us : bool) (acc : Z) (n : nat)
  : option (Z * nat * string) :=
  match s with
  | String c s' =>
      match digit_value c with
      | Some d => scan_digits s' false (10 * acc + d)%Z (S n)
      | None =>
          if is_underscore c then
            if prev_us then None else scan_digits s' true acc n
          else if prev_us then None else Some (acc, n, s)
      end
  | EmptyString => if prev_us then None else Some (acc, n, s)
  end.

(** Digit counts up to this threshold are never checked against the
    limit ([_PY_LONG_MAX_STR_DIGITS_THRESHOLD]). *)
Definition max_str_digits_threshold : nat := 640.

(** The optional sign: whether it is a minus, and what follows it. *)
Definition split_sign (s : string) : bool * string :=
  match s with
  | String "+" r => (false, r)
  | String "-" r => (true, r)
  | _ => (false, s)
  end.

Section Runtime.

(** The interpreter's limit on the number of digits [int] converts
  ([sys.get_int_max_str_digits()]; [0] disables it). *)
Variable max_str_digits : nat.

(** The digits after the sign, up to the end of the string. *)
Definition convert_digits (negative : bool) (s : string) : option Z :=
match s with
| String c _ =>
    if is_underscore c then None
    else
      match scan_digits s false 0%Z 0%nat with
      | Some (v, n, rest) =>
          if (n =? 0)%nat then None
          else if ((max_str_digits_threshold <? n) && (0 <? max_str_digits)
                   && (max_str_digits <? n))%nat then None
          else
            match skip_spaces rest with
            | EmptyString => Some (if negative then (- v)%Z else v)
            | String _ _ => None
            end
      | None => None
      end
| EmptyString => None
end.

Definition py_int (s : string) : option Z :=
let '(negative, digits) := split_sign (skip_spaces s) in
convert_digits negative digits.

End Runtime.

(** ** Data model *)

Module Port.
Record t : Type := mk {
  name : string;
  datatype : string;
  precision : option Z;
  scale : option Z;
  nullable : string;
  port_type : string;
  expression : option string
}.
End Port.

Module Transformation.
Record t : Type := mk {
  name : string;
  type : string;
  description : option string;
  ports : list Port.t;
  properties : gmap string string
}.
End Transformation.

Module Connection.
Record t : Type := mk {
  from_transformation : string;
  from_port : string;
  to_transformation : string;
  to_port : string
}.
End Connection.

Module Mapping.
Record t : Type := mk {
  name : string;
  description : option string;
  folder : option string;
  transformations : list Transformation.t;
  connections : list Connection.t
}.

(** [get_transformation_by_name]: the loop returns at the first
    transformation with that name. *)
Fixpoint find_by_name (name : string) (l : list Transformation.t)
  : option Transformation.t :=
  match l with
  | [] => None
  | trans :: rest =>
      if decide (Transformation.name trans = name) then Some trans
      else find_by_name name rest
  end.

Definition get_transformation_by_name (self : t) (name : string)
  : option Transformation.t :=
  find_by_name name (transformations self).

Definition source_type : string := "Source Definition".
Definition target_type : string := "Target Definition".

Definition get_sources (self : t) : list Transformation.t :=
  filter (λ x, Transformation.type x = source_type) (transformations self).

Definition get_targets (self : t) : list Transformation.t :=
  filter (λ x, Transformation.type x = target_type) (transformations self).

(** [Counter(iterable)]: one increment per item. *)
Definition Counter (items : list string) : gmap string nat :=
  foldl (λ (c : gmap string nat) k, <[k := S (default 0%nat (c !! k))]> c) ∅ items.

Definition get_transformation_counts (self : t) : gmap string nat :=
  Counter (Transformation.type <$> transformations self).

Record Summary : Type := mkSummary {
  s_name : string;
  s_folder : option string;
  total_transformations : nat;
  total_connections : nat;
  sources : nat;
  targets : nat;
  transformation_counts : gmap string nat
}.

Definition get_summary (self : t) : Summary :=
  {| s_name := name self;
     s_folder := folder self;
     total_transformations := length (transformations self);
     total_connections := length (connections self);
     sources := length (get_sources self);
     targets := length (get_targets self);
     transformation_counts := get_transformation_counts self |}.
End Mapping.

(** ** The element tree of [xml.etree.ElementTree] *)

#[local] Unset Elimination Schemes.
Inductive Element : Type :=
  mkElement (tag : string) (attrib : gmap string string) (children : list Element).

#[local] Set Elimination Schemes.

Definition tag (e : Element) : string := let 'mkElement t _ _ := e in t.
Definition attrib (e : Element) : gmap string string := let 'mkElement _ a _ := e in a.
Definition children (e : Element) : list Element := let 'mkElement _ _ c := e in c.

(** [Element.get(key)] and [Element.get(key, default)]. *)
Definition get (e : Element) (key : string) : option string := attrib e !! key.
Definition get_default (e : Element) (key dflt : string) : string :=
  default dflt (attrib e !! key).

(** [Element.iter()]: the element and all its descendants in document
    order. *)
Fixpoint iter (e : Element) : list Element :=
  match e with
  | mkElement _ _ cs => e :: flat_map iter cs
  end.

(** The elements strictly below [e], in document order. *)
Definition descendants (e : Element) : list Element := flat_map iter (children e).

(** How the path tokenizer of [ElementPath] rewrites a plain tag name,
    that is a name of letters, digits and underscores, as are all the
    names the parser queries: it is qualified only when the prefix map
    has a non-empty entry for the empty prefix.  Names with a prefix
    ([ns:X]) or with path syntax are no plain tag names and are not
    covered. *)
Definition qualify (namespaces : gmap string string) (name : string) : string :=
  match namespaces !! "" with
  | Some (String c uri) => "{" +:+ String c uri +:+ "}" +:+ name
  | _ => name
  end.

(** [e.findall('.//' + name, namespaces)] and [e.find('.//' + name,
    namespaces)] for a plain tag name [name]: the descendants of [e]
    (never [e] itself) with that tag, and the first of them. *)
Definition findall (e : Element) (name : string) (namespaces : gmap string string)
  : list Element :=
  filter (λ x, tag x = qualify namespaces name) (descendants e).

Definition find (e : Element) (name : string) (namespaces : gmap string string)
  : option Element :=
  head (findall e name namespaces).

(** What [ET.parse] meets at a path. *)
Inductive File : Type :=
  | Unreadable
  | Malformed
  | Document (root : Element).

(** *** String methods used by the namespace detection *)

Definition startswith (s : string) (c : ascii) : bool :=
  match s with
  | String c' _ => bool_decide (c' = c)
  | EmptyString => false
  end.

(** [s.split(sep)[0]]: the part of [s] before the first [sep]. *)
Fixpoint split_head (sep : ascii) (s : string) : string :=
  match s with
  | String c s' => if bool_decide (c = sep) then "" else String c (split_head sep s')
  | EmptyString => ""
  end.

Fixpoint lstrip (c : ascii) (s : string) : string :=
  match s with
  | String c' s' => if bool_decide (c' = c) then lstrip c s' else s
  | EmptyString => s
  end.

Definition rstrip (c : ascii) (s : string) : string :=
  String.rev (lstrip c (String.rev s)).

Definition strip (c : ascii) (s : string) : string := rstrip c (lstrip c s).

(** ** The parser *)

Module InformaticaXMLParser.

(** The parser object: [tree] and [root] are set together, so one field
    stands for both. *)
Record t : Type := mk {
  xml_path : string;
  root : option Element;
  namespace : gmap string string
}.

Definition TRANSFORMATION_TYPES : gmap string string :=
  list_to_map [
    ("Source Definition", "Source Definition");
    ("Source Qualifier", "Source Qualifier");
    ("Target Definition", "Target Definition");
    ("Expression", "Expression");
    ("Filter", "Filter");
    ("Aggregator", "Aggregator");
    ("Joiner", "Joiner");
    ("Lookup Procedure", "Lookup");
    ("Router", "Router");
    ("Sorter", "Sorter");
    ("Update Strategy", "Update Strategy");
    ("Normalizer", "Normalizer");
    ("Rank", "Rank");
    ("Sequence Generator", "Sequence Generator");
    ("Stored Procedure", "Stored Procedure");
    ("Union", "Union")
  ].

Definition __init__ (xml_path : string) : t :=
  {| xml_path := xml_path; root := None; namespace := ∅ |}.

Definition set_root (r : Element) (self : t) : t :=
  {| xml_path := xml_path self; root := Some r; namespace := namespace self |}.

Definition set_namespace (ns : gmap string string) (self : t) : t :=
  {| xml_path := xml_path self; root := root self; namespace := ns |}.

(** Reading [self.root] as an element: [None] has no [tag] and no
    [find]. *)
Definition self_root : SE t Element := λ self,
  match root self with
  | Some r => (inl r, self)
  | None => (inr AttributeError, self)
  end.

Definition _extract_namespace : SE t unit :=
  r ← self_root;
  if startswith (tag r) "{" then
    modify (set_namespace {[ "ns" := strip "{" (split_head "}" (tag r)) ]})
  else mret tt.

(** [path] is the plain tag name [X] of the query [.//X]. *)
Definition _find_element (path : string) : SE t (option Element) :=
  r ← self_root;
  ns ← gets namespace;
  let elem := find r path ns in
  if bool_decide (elem = None) && negb (bool_decide (ns = ∅)) then
    mret (find r path ∅)
  else mret elem.

Definition _find_all_elements (path : string) : SE t (list Element) :=
  r ← self_root;
  ns ← gets namespace;
  let elems := findall r path ns in
  if bool_decide (elems = []) && negb (bool_decide (ns = ∅)) then
    mret (findall r path ∅)
  else mret elems.

Definition _get_folder_name : SE t (option string) :=
  folder_elem ← _find_element "FOLDER";
  mret (match folder_elem with
        | Some f => get f "NAME"
        | None => None
        end).

Section Parsing.

Variable max_str_digits : nat.

Definition _safe_int (value : option string) : option Z :=
  match value with
  | None => None
  | Some v =>
      match py_int max_str_digits v with
      | Some n => Some n
      | None => None
      end
  end.

(** The [Port] built from one port element (the loop body of
    [_parse_ports]). *)
Definition port_of_element (port_elem : Element) : Port.t :=
  {| Port.name := get_default port_elem "NAME" "Unknown";
     Port.datatype := get_default port_elem "DATATYPE" "string";
     Port.precision := _safe_int (get port_elem "PRECISION");
     Port.scale := _safe_int (get port_elem "SCALE");
     Port.nullable := get_default port_elem "NULLABLE" "NOTNULL";
     Port.port_type := get_default port_elem "PORTTYPE" "INPUT";
     Port.expression := get port_elem "EXPRESSION" |}.

Definition _parse_ports (trans_elem : Element) : list Port.t :=
  let port_elements := findall trans_elem "TRANSFORMFIELD" ∅ in
  foldl (λ ports port_elem, ports ++ [port_of_element port_elem]) [] port_elements.

(** [properties.update(other)]: the entries of [other] win. *)
Definition update (properties other : gmap string string) : gmap string string :=
  other ∪ properties.

Definition _parse_properties (trans_elem : Element) : gmap string string :=
  let properties := update ∅ (attrib trans_elem) in
  foldl (λ properties prop_elem,
           let prop_name := get prop_elem "NAME" in
           let prop_value := get prop_elem "VALUE" in
           match prop_name, prop_value with
           | Some n, Some v =>
               if truthy prop_name && truthy prop_value
               then <[n := v]> properties else properties
           | _, _ => properties
           end)
        properties (findall trans_elem "TABLEATTRIBUTE" ∅).

(** The [Transformation] built from one transformation element (the
    loop body of [_parse_transformations]). *)
Definition transformation_of_element (trans_elem : Element) : Transformation.t :=
  let trans_type := get_default trans_elem "TYPE" "Unknown" in
  let trans_name := get_default trans_elem "NAME" "Unknown" in
  let trans_desc := get trans_elem "DESCRIPTION" in
  {| Transformation.name := trans_name;
     Transformation.type := default trans_type (TRANSFORMATION_TYPES !! trans_type);
     Transformation.description := trans_desc;
     Transformation.ports := _parse_ports trans_elem;
     Transformation.properties := _parse_properties trans_elem |}.

Definition _parse_transformations (mapping_elem : Element) : list Transformation.t :=
  let trans_elements := findall mapping_elem "TRANSFORMATION" ∅ in
  foldl (λ transformations trans_elem,
           transformations ++ [transformation_of_element trans_elem])
        [] trans_elements.

Definition _parse_connections (mapping_elem : Element) : list Connection.t :=
  let connector_elements := findall mapping_elem "CONNECTOR" ∅ in
  foldl (λ connections conn_elem,
           let from_field := get conn_elem "FROMFIELD" in
           let from_instance := get conn_elem "FROMINSTANCE" in
           let to_field := get conn_elem "TOFIELD" in
           let to_instance := get conn_elem "TOINSTANCE" in
           if all (truthy <$> [from_field; from_instance; to_field; to_instance]) then
             match from_field, from_instance, to_field, to_instance with
             | Some ff, Some fi, Some tf, Some ti =>
                 connections ++
                   [ {| Connection.from_transformation := fi;
                        Connection.from_port := ff;
                        Connection.to_transformation := ti;
                        Connection.to_port := tf |} ]
             | _, _, _, _ => connections
             end
           else connections)
        [] connector_elements.

(** The file system [ET.parse] reads from. *)
Variable fs : string → File.

Definition ET_parse (path : string) : Element + PyExn :=
  match fs path with
  | Document r => inl r
  | Malformed => inr ParseError
  | Unreadable => inr OSError
  end.

Definition parse : SE t Mapping.t :=
  path ← gets xml_path;
  tree_root ← lift (ET_parse path);
  modify (set_root tree_root);;
  _extract_namespace;;
  mapping_elem ← _find_element "MAPPING";
  match mapping_elem with
  | None => raise (ValueError "No MAPPING element found in XML")
  | Some mapping_elem =>
      folder ← _get_folder_name;
      mret {| Mapping.name := get_default mapping_elem "NAME" "Unknown";
              Mapping.description := get mapping_elem "DESCRIPTION";
              Mapping.folder := folder;
              Mapping.transformations := _parse_transformations mapping_elem;
              Mapping.connections := _parse_connections mapping_elem |}
  end.

End Parsing.

End InformaticaXMLParser.

(** ** The reporter *)

(** *** Text formatting *)

Definition nl : string := String (ascii_of_nat 10) "".

(** [s * n] *)
Fixpoint str_mul (s : string) (n : nat) : string :=
  match n with
  | O => ""
  | S n' => s +:+ str_mul s n'
  end.

(** [{s:c<w}]: left-aligned in a field of width [w] filled with [c]. *)
Definition ljust (w : nat) (c : string) (s : string) : string :=
  s +:+ str_mul c (w - String.length s).

(** [{s:>w}]: right-aligned in a field of width [w]. *)
Definition rjust (w : nat) (s : string) : string :=
  str_mul " " (w - String.length s) +:+ s.

Definition str_nat (n : nat) : string := pretty n.

(** [str] of an [Optional[str]]. *)
Definition str_opt (v : option string) : string := default "None" v.

(** [Connection.__repr__] *)
Definition Connection_repr (c : Connection.t) : string :=
  Connection.from_transformation c +:+ "." +:+ Connection.from_port c +:+ " -> " +:+
  Connection.to_transformation c +:+ "." +:+ Connection.to_port c.

(** The order [sorted] puts the [(type, count)] items in: tuples compare
    by their first components and, when these are equal, by their
    second. *)
Definition item_le (a b : string * nat) : Prop :=
  if decide (a.1 = b.1) then a.2 ≤ b.2 else String.le a.1 b.1.

Global Instance item_le_dec : RelDecision item_le.
Proof. intros a b. unfold item_le. destruct (decide (a.1 = b.1)); apply _. Defined.

Definition sorted (items : list (string * nat)) : list (string * nat) :=
  merge_sort item_le items.

(** [enumerate(l, start)] *)
Fixpoint enumerate {A} (l : list A) (start : nat) : list (nat * A) :=
  match l with
  | [] => []
  | x :: l' => (start, x) :: enumerate l' (S start)
  end.

(** A [for] loop whose body acts on the state. *)
Fixpoint for_each {S A} (l : list A) (body : A → SE S unit) : SE S unit :=
  match l with
  | [] => mret tt
  | x :: l' => body x;; for_each l' body
  end.

Definition when {S} (b : bool) (body : SE S unit) : SE S unit :=
  if b then body else mret tt.

(** The decorations of the report lines, as the literals have them
    (UTF-8). *)
Definition icon_folder : string := "üìÅ".
Definition icon_total : string := "üìä".
Definition icon_link : string := "üîó".
Definition icon_source : string := "üì•".
Definition icon_target : string := "üì§".
Definition icon_other : string := "üîß".

Module Reporter.

(** What the reporter can reach: the [Mapping] object it is handed and
    the standard output, one entry per [print] call. *)
Record World : Type := mkWorld {
  mapping : Mapping.t;
  stdout : list string
}.

Definition print (line : string) : SE World unit :=
  modify (λ w, {| mapping := mapping w; stdout := stdout w ++ [line] |}).

Definition rule : string := str_mul "=" 80.

Definition print_sample_ports (ports : list Port.t) : SE World unit :=
  when (bool_decide (ports ≠ []))
    (print "     Sample Ports:";;
     for_each (take 5 ports) (λ port,
       print ("       - " +:+ Port.name port +:+ " (" +:+ Port.datatype port +:+ ")"))).

Definition print_mapping_summary : SE World unit :=
  print rule;;
  name ← gets (Mapping.name ∘ mapping);
  print ("MAPPING SUMMARY: " +:+ name);;
  print rule;;

  summary ← gets (Mapping.get_summary ∘ mapping);

  print (nl +:+ icon_folder +:+ " Folder: " +:+ str_opt (Mapping.s_folder summary));;
  print (icon_total +:+ " Total Transformations: "
           +:+ str_nat (Mapping.total_transformations summary));;
  print (icon_link +:+ " Total Connections: "
           +:+ str_nat (Mapping.total_connections summary));;
  print (icon_source +:+ " Source Count: " +:+ str_nat (Mapping.sources summary));;
  print (icon_target +:+ " Target Count: " +:+ str_nat (Mapping.targets summary));;

  print (nl +:+ rule);;
  print "TRANSFORMATION BREAKDOWN";;
  print rule;;

  for_each (sorted (map_to_list (Mapping.transformation_counts summary)))
    (λ '(trans_type, count),
       print ("  " +:+ ljust 50 "." trans_type +:+ " " +:+ rjust 3 (str_nat count)));;

  print (nl +:+ rule);;
  print "SOURCE TRANSFORMATIONS";;
  print rule;;

  sources ← gets (Mapping.get_sources ∘ mapping);
  for_each sources (λ source,
    print (nl +:+ "  " +:+ icon_source +:+ " " +:+ Transformation.name source);;
    print ("     Type: " +:+ Transformation.type source);;
    print ("     Ports: " +:+ str_nat (length (Transformation.ports source)));;
    print_sample_ports (Transformation.ports source));;

  print (nl +:+ rule);;
  print "TARGET TRANSFORMATIONS";;
  print rule;;

  targets ← gets (Mapping.get_targets ∘ mapping);
  for_each targets (λ target,
    print (nl +:+ "  " +:+ icon_target +:+ " " +:+ Transformation.name target);;
    print ("     Type: " +:+ Transformation.type target);;
    print ("     Ports: " +:+ str_nat (length (Transformation.ports target)));;
    print_sample_ports (Transformation.ports target));;

  print (nl +:+ rule);;
  print "TRANSFORMATION DETAILS";;
  print rule;;

  transformations ← gets (Mapping.transformations ∘ mapping);
  for_each transformations (λ trans,
    when (bool_decide (Transformation.type trans ∉
                         [Mapping.source_type; Mapping.target_type]))
      (print (nl +:+ "  " +:+ icon_other +:+ " " +:+ Transformation.name trans);;
       print ("     Type: " +:+ Transformation.type trans);;
       print ("     Ports: " +:+ str_nat (length (Transformation.ports trans)));;
       let expr_ports :=
         filter (λ p, truthy (Port.expression p) = true) (Transformation.ports trans) in
       when (bool_decide (expr_ports ≠ []))
         (print ("     Expressions: " +:+ str_nat (length expr_ports));;
          for_each (take 3 expr_ports) (λ port,
            print ("       - " +:+ Port.name port +:+ " = "
                     +:+ str_opt (Port.expression port))))));;

  print (nl +:+ rule);;
  print "DATA FLOW (First 10 connections)";;
  print rule;;

  connections ← gets (Mapping.connections ∘ mapping);
  for_each (enumerate (take 10 connections) 1) (λ '(i, conn),
    print ("  " +:+ rjust 2 (str_nat i) +:+ ". " +:+ Connection_repr conn));;

  connections ← gets (Mapping.connections ∘ mapping);
  when (bool_decide (10 < length connections))
    (print ("  ... and " +:+ str_nat (length connections - 10) +:+ " more connections"));;

  print (nl +:+ rule).

End Reporter.

(** ** The exporter *)

(** The values [json.dump] writes and [json.load] gives back: [None],
    [str], [int], [list], and [dict] with its items in order. *)
#[local] Unset Elimination Schemes.
Inductive json : Type :=
  | JNull
  | JString (s : string)
  | JNumber (n : Z)
  | JArray (items : list json)
  | JObject (members : list (string * json)).
#[local] Set Elimination Schemes.

Definition json_opt_str (v : option string) : json :=
  match v with
  | Some s => JString s
  | None => JNull
  end.

Definition json_opt_int (v : option Z) : json :=
  match v with
  | Some n => JNumber n
  | None => JNull
  end.

(** The integers of a value, in the order [json.dump] writes them. *)
Fixpoint json_ints (v : json) : list Z :=
  match v with
  | JNumber n => [n]
  | JArray items => flat_map json_ints items
  | JObject members => flat_map (λ kv, json_ints kv.2) members
  | _ => []
  end.

(** Whether the decimal representation of [n] has more than [k] digits,
    the sign not counted. *)
Definition more_digits_than (k : nat) (n : Z) : bool :=
  (10 ^ Z.of_nat k <=? Z.abs n)%Z.

(** Whether converting [n] to or from its decimal representation raises
    [ValueError] under the interpreter's digit limit [max_str_digits]
    ([0] disables the limit; numbers of at most 640 digits are never
    checked). *)
Definition exceeds_digit_limit (max_str_digits : nat) (n : Z) : bool :=
  more_digits_than max_str_digits_threshold n && (0 <? max_str_digits)
  && more_digits_than max_str_digits n.

Definition digit_limit_message (max_str_digits : nat) : string :=
  "Exceeds the limit (" +:+ pretty max_str_digits
  +:+ " digits) for integer string conversion; "
  +:+ "use sys.set_int_max_str_digits() to increase the limit".

(** A [Dict[str, str]] as a JSON object. *)
Definition json_str_dict (d : gmap string string) : json :=
  JObject ((λ kv, (kv.1, JString kv.2)) <$> map_to_list d).

Module Exporter.

Definition port_data (p : Port.t) : json :=
  JObject [
    ("name", JString (Port.name p));
    ("datatype", JString (Port.datatype p));
    ("precision", json_opt_int (Port.precision p));
    ("scale", json_opt_int (Port.scale p));
    ("nullable", JString (Port.nullable p));
    ("port_type", JString (Port.port_type p));
    ("expression", json_opt_str (Port.expression p))
  ].

Definition transformation_data (t : Transformation.t) : json :=
  JObject [
    ("name", JString (Transformation.name t));
    ("type", JString (Transformation.type t));
    ("description", json_opt_str (Transformation.description t));
    ("ports", JArray (port_data <$> Transformation.ports t));
    ("properties", json_str_dict (Transformation.properties t))
  ].

Definition connection_data (c : Connection.t) : json :=
  JObject [
    ("from_transformation", JString (Connection.from_transformation c));
    ("from_port", JString (Connection.from_port c));
    ("to_transformation", JString (Connection.to_transformation c));
    ("to_port", JString (Connection.to_port c))
  ].

(** The dictionary [data] that [export_to_json] builds. *)
Definition data (mapping : Mapping.t) : json :=
  JObject [
    ("name", JString (Mapping.name mapping));
    ("description", json_opt_str (Mapping.description mapping));
    ("folder", json_opt_str (Mapping.folder mapping));
    ("transformations", JArray (transformation_data <$> Mapping.transformations mapping));
    ("connections", JArray (connection_data <$> Mapping.connections mapping))
  ].

(** What a file holds: the value of a document that [json.dump] wrote to
    the end, or the unfinished text of a file that was opened for writing
    and not written to the end. *)
Inductive FileContent : Type :=
  | Complete (v : json)
  | Unfinished.

(** The files the exporter can write and the standard output.
    [opens path] is what [open(path, 'w')] does: [None] when it returns a
    file object, [Some e] when it raises [e]. *)
Record World : Type := mkWorld {
  opens : string → option PyExn;
  files : gmap string FileContent;
  stdout : list string
}.

Definition icon_done : string := "‚úÖ".

Definition set_file (path : string) (c : FileContent) (w : World) : World :=
  {| opens := opens w; files := <[path := c]> (files w); stdout := stdout w |}.

(** [open(output_path, 'w')]: the file is emptied as soon as it is
    opened. *)
Definition open_w (output_path : string) : SE World unit := λ w,
  match opens w output_path with
  | Some e => (inr e, w)
  | None => (inl tt, set_file output_path Unfinished w)
  end.

Definition print (line : string) : SE World unit :=
  modify (λ w, {| opens := opens w; files := files w;
                  stdout := stdout w ++ [line] |}).

Section Runtime.

(** The interpreter's digit limit, as for [py_int]. *)
Variable max_str_digits : nat.

(** [json.dump(v, f, indent=2)] on the open file: the text is written
    piece by piece, and the conversion of an integer beyond the digit
    limit raises in the middle of it. *)
Definition json_dump (output_path : string) (v : json) : SE World unit := λ w,
  if existsb (exceeds_digit_limit max_str_digits) (json_ints v) then
    (inr (ValueError (digit_limit_message max_str_digits)), w)
  else (inl tt, set_file output_path (Complete v) w).

Definition export_to_json (mapping : Mapping.t) (output_path : string) : SE World unit :=
  open_w output_path;;
  json_dump output_path (data mapping);;
  print (nl +:+ icon_done +:+ " Mapping exported to: " +:+ output_path).

End Runtime.

End Exporter.

(** *** Reading an exported document back *)

Module Importer.

(** [d[key]] on a JSON object. *)
Fixpoint assoc (key : string) (members : list (string * json)) : option json :=
  match members with
  | [] => None
  | (k, v) :: rest => if decide (k = key) then Some v else assoc key rest
  end.

Definition member (key : string) (v : json) : option json :=
  match v with
  | JObject members => assoc key members
  | _ => None
  end.

Definition as_str (v : json) : option string :=
  match v with JString s => Some s | _ => None end.

Definition as_opt_str (v : json) : option (option string) :=
  match v with JString s => Some (Some s) | JNull => Some None | _ => None end.

Definition as_opt_int (v : json) : option (option Z) :=
  match v with JNumber n => Some (Some n) | JNull => Some None | _ => None end.

Definition as_list {A} (f : json → option A) (v : json) : option (list A) :=
  match v with JArray items => mapM f items | _ => None end.

Definition as_str_dict (v : json) : option (gmap string string) :=
  match v with
  | JObject members =>
      list_to_map <$> mapM (λ kv, pair kv.1 <$> as_str kv.2) members
  | _ => None
  end.

(** Modelled from the spec: the repository has no reader of the exported
    document; this one rebuilds a [Port] from the keys the spec's
    external-interface section lists for a port object. *)
Definition read_port (v : json) : option Port.t :=
  name ← member "name" v ≫= as_str;
  datatype ← member "datatype" v ≫= as_str;
  precision ← member "precision" v ≫= as_opt_int;
  scale ← member "scale" v ≫= as_opt_int;
  nullable ← member "nullable" v ≫= as_str;
  port_type ← member "port_type" v ≫= as_str;
  expression ← member "expression" v ≫= as_opt_str;
  Some (Port.mk name datatype precision scale nullable port_type expression).

(** Modelled from the spec: the reader of a transformation object, absent
    from the repository, from the keys [name], [type], [description],
    [ports] and [properties] of the spec's external-interface section. *)
Definition read_transformation (v : json) : option Transformation.t :=
  name ← member "name" v ≫= as_str;
  type ← member "type" v ≫= as_str;
  description ← member "description" v ≫= as_opt_str;
  ports ← member "ports" v ≫= as_list read_port;
  properties ← member "properties" v ≫= as_str_dict;
  Some (Transformation.mk name type description ports properties).

(** Modelled from the spec: the reader of a connection object, absent
    from the repository, from the four keys the spec lists. *)
Definition read_connection (v : json) : option Connection.t :=
  from_transformation ← member "from_transformation" v ≫= as_str;
  from_port ← member "from_port" v ≫= as_str;
  to_transformation ← member "to_transformation" v ≫= as_str;
  to_port ← member "to_port" v ≫= as_str;
  Some (Connection.mk from_transformation from_port to_transformation to_port).

(** Modelled from the spec: the reader of the whole exported document,
    absent from the repository, from the top-level keys [name],
    [description], [folder], [transformations] and [connections]. *)
Definition read_mapping (v : json) : option Mapping.t :=
  name ← member "name" v ≫= as_str;
  description ← member "description" v ≫= as_opt_str;
  folder ← member "folder" v ≫= as_opt_str;
  transformations ← member "transformations" v ≫= as_list read_transformation;
  connections ← member "connections" v ≫= as_list read_connection;
  Some (Mapping.mk name description folder transformations connections).

(** Modelled from the spec: re-reading the document at [path], that is
    [json.load] followed by [read_mapping].  [json.load] gives no value
    for an unfinished file, nor for one with an integer beyond the digit
    limit [max_str_digits]. *)
Definition reread (max_str_digits : nat) (path : string) (w : Exporter.World)
  : option Mapping.t :=
  match Exporter.files w !! path with
  | Some (Exporter.Complete v) =>
      if existsb (exceeds_digit_limit max_str_digits) (json_ints v) then None
      else read_mapping v
  | _ => None
  end.

End Importer.

(** * Vocabulary of the specification *)

Import InformaticaXMLParser.

(** The only prefix [_extract_namespace] ever binds is ["ns"]; the empty
    prefix stays unbound. *)
Definition plain_namespace (self : InformaticaXMLParser.t) : Prop :=
  namespace self !! "" = None.

(** Some element of the document, the root included, is a mapping
    element. *)
Definition contains_mapping_element (root : Element) : Prop :=
  ∃ e, e ∈ iter root ∧ tag e = "MAPPING".

(** The elements with a given tag below [e], in document order. *)
Definition elements_under (e : Element) (name : string) : list Element :=
  filter (λ x, tag x = name) (descendants e).

(** An attribute that is present and not empty. *)
Definition present (e : Element) (key : string) : Prop :=
  match attrib e !! key with
  | Some v => v ≠ ""
  | None => False
  end.

Global Instance present_dec e key : Decision (present e key).
Proof. unfold present. destruct (attrib e !! key); apply _. Defined.

(** A connector element with its four addressing attributes. *)
Definition complete_connector (e : Element) : Prop :=
  present e "FROMFIELD" ∧ present e "FROMINSTANCE" ∧
  present e "TOFIELD" ∧ present e "TOINSTANCE".

Global Instance complete_connector_dec e : Decision (complete_connector e).
Proof. unfold complete_connector. apply _. Defined.

(** The connection a complete connector element stands for. *)
Definition connection_of_connector (e : Element) : Connection.t :=
  {| Connection.from_transformation := default "" (attrib e !! "FROMINSTANCE");
     Connection.from_port := default "" (attrib e !! "FROMFIELD");
     Connection.to_transformation := default "" (attrib e !! "TOINSTANCE");
     Connection.to_port := default "" (attrib e !! "TOFIELD") |}.

(** The name and value a property element contributes, when both are
    present and not empty. *)
Definition property_entry (prop_elem : Element) : option (string * string) :=
  match attrib prop_elem !! "NAME", attrib prop_elem !! "VALUE" with
  | Some n, Some v => if decide (n ≠ "" ∧ v ≠ "") then Some (n, v) else None
  | _, _ => None
  end.

(** The entries of the property elements below a transformation element,
    in document order. *)
Definition overlay_entries (trans_elem : Element) : list (string * string) :=
  omap property_entry (elements_under trans_elem "TABLEATTRIBUTE").

(** [base] overlaid with [entries] in order: an entry wins over [base] and
    over the entries before it. *)
Definition overlay (base : gmap string string) (entries : list (string * string))
  : gmap string string :=
  list_to_map (reverse entries) ∪ base.

(** A computation of the reporter that returns normally, leaves the
    [Mapping] as it found it and only adds lines to the output. *)
Definition frames_mapping {A} (c : SE Reporter.World A) : Prop :=
  ∀ w, ∃ a lines,
    c w = (inl a, {| Reporter.mapping := Reporter.mapping w;
                     Reporter.stdout := Reporter.stdout w ++ lines |}).

(** A mapping without transformations and connections. *)
Definition empty_mapping : Mapping.t :=
  {| Mapping.name := "m_empty"; Mapping.description := None; Mapping.folder := None;
     Mapping.transformations := []; Mapping.connections := [] |}.

(** A mapping with one transformation, one port and one connection. *)
Definition sample_mapping : Mapping.t :=
  {| Mapping.name := "m_load"; Mapping.description := None;
     Mapping.folder := Some "Sales";
     Mapping.transformations :=
       [ {| Transformation.name := "src"; Transformation.type := "Source Definition";
            Transformation.description := Some "orders";
            Transformation.ports :=
              [ {| Port.name := "id"; Port.datatype := "integer";
                   Port.precision := Some 10%Z; Port.scale := None;
                   Port.nullable := "NOTNULL"; Port.port_type := "OUTPUT";
                   Port.expression := None |} ];
            Transformation.properties := {[ "NAME" := "src"; "TYPE" := "Source Definition" ]} |} ];
     Mapping.connections :=
       [ {| Connection.from_transformation := "src"; Connection.from_port := "id";
            Connection.to_transformation := "tgt"; Connection.to_port := "id" |} ] |}.

(** A world in which every path can be opened for writing. *)
Definition open_world : Exporter.World :=
  {| Exporter.opens := λ _, None; Exporter.files := ∅; Exporter.stdout := [] |}.

(** The precision and scale values of a mapping, in document order. *)
Definition port_numbers (p : Port.t) : list Z :=
  option_list (Port.precision p) ++ option_list (Port.scale p).

Definition mapping_numbers (m : Mapping.t) : list Z :=
  flat_map (λ t, flat_map port_numbers (Transformation.ports t)) (Mapping.transformations m).

(** No precision or scale of the mapping is beyond the digit limit. *)
Definition within_digit_limit (max_str_digits : nat) (m : Mapping.t) : Prop :=
  Forall (λ n, exceeds_digit_limit max_str_digits n = false) (mapping_numbers m).

(** A mapping with a precision of 4301 digits. *)
Definition long_precision_mapping : Mapping.t :=
  {| Mapping.name := "m_load"; Mapping.description := None; Mapping.folder := None;
     Mapping.transformations :=
       [ {| Transformation.name := "src"; Transformation.type := "Source Definition";
            Transformation.description := None;
            Transformation.ports :=
              [ {| Port.name := "id"; Port.datatype := "integer";
                   Port.precision := Some (10 ^ Z.of_nat 4300)%Z; Port.scale := None;
                   Port.nullable := "NOTNULL"; Port.port_type := "OUTPUT";
                   Port.expression := None |} ];
            Transformation.properties := ∅ |} ];
     Mapping.connections := [] |}.

(** *** Decimal integer literals

    What a numeric string is: optional white space, an optional sign,
    groups of decimal digits separated by single underscores, optional
    white space. *)

Definition is_digit (c : ascii) : Prop := 48 ≤ nat_of_ascii c ≤ 57.

Inductive digit_groups : string → Prop :=
  | groups_last c : is_digit c → digit_groups (String c "")
  | groups_digit c s : is_digit c → digit_groups s → digit_groups (String c s)
  | groups_underscore c s :
      is_digit c → digit_groups s → digit_groups (String c (String "_" s)).

Fixpoint blank (s : string) : Prop :=
  match s with
  | String c s' => is_space c = true ∧ blank s'
  | EmptyString => True
  end.

Definition int_literal (s : string) : Prop :=
  ∃ before sign body after,
    s = before +:+ sign +:+ body +:+ after ∧
    blank before ∧ (sign = "" ∨ sign = "+" ∨ sign = "-") ∧
    digit_groups body ∧ blank after.

(** How many transformations of a mapping have a given type. *)
Definition occurrences (k : string) (m : Mapping.t) : nat :=
  length (filter (λ x, Transformation.type x = k) (Mapping.transformations m)).

(** The sum of the counts of a type breakdown. *)
Definition total_count (counts : gmap string nat) : nat :=
  map_fold (λ _ c acc, c + acc) 0 counts.

(** A string without braces. *)
Fixpoint brace_free (s : string) : Prop :=
  match s with
  | String c s' => c ≠ "{"%char ∧ c ≠ "}"%char ∧ brace_free s'
  | EmptyString => True
  end.

(** Induction on the element tree: a property holds of an element when it
    holds of all its children. *)
Fixpoint Element_tree_ind (P : Element → Prop)
    (step : ∀ t a cs, Forall P cs → P (mkElement t a cs)) (e : Element) : P e :=
  match e with
  | mkElement t a cs =>
      step t a cs
        ((fix children_ok (l : list Element) : Forall P l :=
            match l with
            | [] => Forall_nil_2 P
            | c :: l' => Forall_cons_2 P c l' (Element_tree_ind P step c) (children_ok l')
            end) cs)
  end.

(** A transformation element nested in another one. *)
Definition inner_transformation : Element :=
  mkElement "TRANSFORMATION" {[ "NAME" := "inner"; "TYPE" := "Expression" ]}
    [ mkElement "TRANSFORMFIELD" {[ "NAME" := "amount"; "DATATYPE" := "decimal" ]} [] ].

Definition outer_transformation : Element :=
  mkElement "TRANSFORMATION" {[ "NAME" := "outer"; "TYPE" := "Mapplet" ]}
    [ mkElement "TRANSFORMFIELD" {[ "NAME" := "id" ]} []; inner_transformation ].

(** A parser whose root is a namespace-qualified element. *)
Definition qualified_parser : InformaticaXMLParser.t :=
  {| xml_path := "m_load.xml";
     root := Some (mkElement "{http://www.informatica.com/powermart}POWERMART" ∅
                     [ mkElement "MAPPING" {[ "NAME" := "m_load" ]} [] ]);
     namespace := ∅ |}.

(** The value of the decimal digits of a string, read left to right, and
    their number; characters that are not digits are passed over. *)
Fixpoint digits_value (s : string) (acc : Z) : Z :=
  match s with
  | String c s' =>
      match digit_value c with
      | Some d => digits_value s' (10 * acc + d)%Z
      | None => digits_value s' acc
      end
  | EmptyString => acc
  end.

Fixpoint digit_count (s : string) : nat :=
  match s with
  | String c s' => (match digit_value c with Some _ => 1 | None => 0 end) + digit_count s'
  | EmptyString => 0
  end.

(** The lines of the data-flow section of the report, with the closing
    rule: the first ten connections, numbered from 1, and a note when
    some are left out. *)
Definition flow_lines (connections : list Connection.t) : list string :=
  ((λ ic : nat * Connection.t,
      "  " +:+ rjust 2 (str_nat ic.1) +:+ ". " +:+ Connection_repr ic.2)
     <$> enumerate (take 10 connections) 1) ++
  (if decide (10 < length connections)
   then ["  ... and " +:+ str_nat (length connections - 10) +:+ " more connections"]
   else []) ++
  [nl +:+ Reporter.rule].

(** A computation of the reporter, run on the mapping [m], that returns
    normally, leaves [m] as it is, and whose output ends with [ending]. *)
Definition ends_with (m : Mapping.t) (ending : list string) (c : SE Reporter.World unit)
  : Prop :=
  ∀ w, Reporter.mapping w = m →
    ∃ before,
      c w = (inl tt, {| Reporter.mapping := m;
                        Reporter.stdout := Reporter.stdout w ++ before ++ ending |}).

(** A plain tag name: not empty, and made of ASCII letters, digits and
    underscores only. *)
Definition is_name_char (c : ascii) : bool :=
  let n := nat_of_ascii c in
  ((65 <=? n) && (n <=? 90) || (97 <=? n) && (n <=? 122)
   || (48 <=? n) && (n <=? 57) || (n =? 95))%nat.

Fixpoint all_name_chars (s : string) : bool :=
  match s with
  | String c s' => is_name_char c && all_name_chars s'
  | EmptyString => true
  end.

Definition plain_tag_name (s : string) : Prop :=
  s ≠ "" ∧ all_name_chars s = true.

(** A mapping element, with or without a namespace: its tag is [MAPPING]
    or [{uri}MAPPING]. *)
Definition mapping_element (e : Element) : Prop :=
  tag e = "MAPPING" ∨ ∃ uri, tag e = "{" +:+ uri +:+ "}MAPPING".

(** A document with a default namespace: every element is qualified. *)
Definition qualified_document : Element :=
  mkElement "{http://www.informatica.com/powermart}POWERMART" ∅
    [ mkElement "{http://www.informatica.com/powermart}MAPPING" {[ "NAME" := "m_load" ]}
        [ mkElement "{http://www.informatica.com/powermart}TRANSFORMATION"
            {[ "NAME" := "src"; "TYPE" := "Source Definition" ]} [] ] ].

(** A document whose root is the mapping element. *)
Definition mapping_at_root : Element :=
  mkElement "MAPPING" {[ "NAME" := "m_load" ]}
    [ mkElement "TRANSFORMATION" {[ "NAME" := "src"; "TYPE" := "Source Definition" ]} [] ].

(** A document without a mapping element. *)
Definition no_mapping_document : Element :=
  mkElement "POWERMART" ∅ [ mkElement "FOLDER" {[ "NAME" := "Sales" ]} [] ].

(** A small complete document. *)
Definition sample_document : Element :=
  mkElement "POWERMART" ∅
    [ mkElement "FOLDER" {[ "NAME" := "Sales" ]}
        [ mkElement "MAPPING" {[ "NAME" := "m_load" ]}
            [ mkElement "TRANSFORMATION"
                {[ "NAME" := "lkp"; "TYPE" := "Lookup Procedure" ]}
                [ mkElement "TRANSFORMFIELD"
                    {[ "NAME" := "id"; "PRECISION" := "12"; "SCALE" := "abc" ]} [];
                  mkElement "TABLEATTRIBUTE"
                    {[ "NAME" := "TYPE"; "VALUE" := "cached" ]} [] ];
              mkElement "TRANSFORMATION" {[ "TYPE" := "CustomStep" ]}
                [ mkElement "TRANSFORMFIELD" ∅ [] ];
              mkElement "CONNECTOR"
                {[ "FROMFIELD" := "id"; "FROMINSTANCE" := "src";
                   "TOFIELD" := "id"; "TOINSTANCE" := "lkp" ]} [];
              mkElement "CONNECTOR"
                {[ "FROMFIELD" := "id"; "FROMINSTANCE" := "src";
                   "TOFIELD" := ""; "TOINSTANCE" := "lkp" ]} [];
              mkElement "CONNECTOR"
                {[ "FROMFIELD" := "id"; "FROMINSTANCE" := "src";
                   "TOINSTANCE" := "lkp" ]} [] ] ] ].

(** * Properties *)

(** ** Loops that append *)

Lemma foldl_append {A B} (f : A → B) (l : list A) (acc : list B) :
  foldl (λ acc x, acc ++ [f x]) acc l = acc ++ (f <$> l).
Proof.
  revert acc. induction l as [|x l IH]; intros acc; simpl.
  - by rewrite app_nil_r.
  - rewrite IH. by rewrite <- app_assoc.
Qed.

Lemma foldl_append_omap {A B} (f : A → option B) (body : list B → A → list B)
    (l : list A) (acc : list B) :
  (∀ acc x, body acc x = match f x with Some y => acc ++ [y] | None => acc end) →
  foldl body acc l = acc ++ omap f l.
Proof.
  intros Hbody. revert acc. induction l as [|x l IH]; intros acc; simpl.
  - by rewrite app_nil_r.
  - rewrite IH, Hbody. destruct (f x); simpl; [|done].
    by rewrite <- app_assoc.
Qed.

(** ** Queries on the element tree *)

Lemma qualify_no_default ns name : ns !! "" = None → qualify ns name = name.
Proof. unfold qualify. by intros ->. Qed.

Lemma findall_no_default e name ns :
  ns !! "" = None → findall e name ns = findall e name ∅.
Proof.
  intros H. unfold findall. rewrite (qualify_no_default ns), (qualify_no_default ∅); done.
Qed.

Lemma find_no_default e name ns :
  ns !! "" = None → find e name ns = find e name ∅.
Proof. intros H. unfold find. by rewrite findall_no_default. Qed.

Lemma iter_unfold e : iter e = e :: descendants e.
Proof. by destruct e. Qed.

Lemma findall_elements_under e name : findall e name ∅ = elements_under e name.
Proof. reflexivity. Qed.

Lemma elem_of_findall e name x :
  x ∈ findall e name ∅ ↔ x ∈ descendants e ∧ tag x = name.
Proof. unfold findall. rewrite list_elem_of_filter. unfold qualify. simpl. tauto. Qed.

(** ** The parser's state *)

Lemma _find_element_plain self r path :
  root self = Some r → plain_namespace self →
  _find_element path self = (inl (find r path ∅), self).
Proof.
  intros Hr Hns. unfold _find_element, self_root, mbind, SE_bind, gets, mret, SE_ret.
  rewrite Hr. simpl. rewrite (find_no_default _ _ _ Hns).
  by destruct (bool_decide _ && _).
Qed.

Lemma _extract_namespace_plain self r :
  root self = Some r → plain_namespace self →
  ∃ self', _extract_namespace self = (inl tt, self') ∧
           root self' = Some r ∧ xml_path self' = xml_path self ∧ plain_namespace self'.
Proof.
  intros Hr Hns. unfold _extract_namespace, self_root, mbind, SE_bind, modify, mret, SE_ret.
  rewrite Hr. simpl. destruct (startswith _ _); eexists; split_and!; done.
Qed.

(** What [parse] does on a readable, well-formed document, step by step. *)
Lemma parse_document limit fs self r :
  fs (xml_path self) = Document r → plain_namespace self →
  ∃ self', xml_path self' = xml_path self ∧ plain_namespace self' ∧
    parse limit fs self =
      (match find r "MAPPING" ∅ with
       | None => inr (ValueError "No MAPPING element found in XML")
       | Some mapping_elem =>
           inl {| Mapping.name := get_default mapping_elem "NAME" "Unknown";
                  Mapping.description := get mapping_elem "DESCRIPTION";
                  Mapping.folder := find r "FOLDER" ∅ ≫= λ f, get f "NAME";
                  Mapping.transformations := _parse_transformations limit mapping_elem;
                  Mapping.connections := _parse_connections mapping_elem |}
       end, self').
Proof.
  intros Hfs Hns.
  destruct (_extract_namespace_plain (set_root r self) r) as (self' & He & Hr' & Hp & Hns');
    [done | done |].
  exists self'. split; [done|]. split; [done|].
  unfold parse, mbind, SE_bind, gets, lift, ET_parse, modify, raise.
  rewrite Hfs. rewrite He.
  rewrite (_find_element_plain self' r "MAPPING" Hr' Hns').
  destruct (find r "MAPPING" ∅) as [m|]; [|done].
  unfold _get_folder_name, mbind, SE_bind, mret, SE_ret.
  rewrite (_find_element_plain self' r "FOLDER" Hr' Hns').
  by destruct (find r "FOLDER" ∅).
Qed.

(** ** Transformations and connections of a parsed document *)

Lemma _parse_transformations_map limit mapping_elem :
  _parse_transformations limit mapping_elem =
    transformation_of_element limit <$> elements_under mapping_elem "TRANSFORMATION".
Proof. unfold _parse_transformations. by rewrite foldl_append. Qed.

Lemma _parse_ports_map limit trans_elem :
  _parse_ports limit trans_elem =
    port_of_element limit <$> elements_under trans_elem "TRANSFORMFIELD".
Proof. unfold _parse_ports. by rewrite foldl_append. Qed.

Lemma truthy_present e key : truthy (get e key) = true ↔ present e key.
Proof.
  unfold present, get. destruct (attrib e !! key) as [[|c v]|]; simpl; split; done.
Qed.

Lemma omap_filter_fmap {A B} (P : A → Prop) `{∀ x, Decision (P x)} (f : A → B) (l : list A) :
  omap (λ x, if decide (P x) then Some (f x) else None) l = f <$> filter P l.
Proof.
  induction l as [|x l IH]; [done|]. rewrite filter_cons. csimpl.
  destruct (decide (P x)); csimpl; by rewrite IH.
Qed.

Lemma _parse_connections_filter mapping_elem :
  _parse_connections mapping_elem =
    connection_of_connector <$> filter complete_connector (elements_under mapping_elem "CONNECTOR").
Proof.
  unfold _parse_connections. rewrite <- omap_filter_fmap.
  apply (foldl_append_omap _ _ _ []). intros acc e.
  destruct (decide (complete_connector e)) as [Hc|Hc].
  - destruct Hc as (H1 & H2 & H3 & H4).
    unfold connection_of_connector.
    pose proof (proj2 (truthy_present _ _) H1) as T1.
    pose proof (proj2 (truthy_present _ _) H2) as T2.
    pose proof (proj2 (truthy_present _ _) H3) as T3.
    pose proof (proj2 (truthy_present _ _) H4) as T4.
    simpl. unfold all. simpl. rewrite T1, T2, T3, T4. simpl.
    unfold get in *.
    destruct (attrib e !! "FROMFIELD"), (attrib e !! "FROMINSTANCE"),
      (attrib e !! "TOFIELD"), (attrib e !! "TOINSTANCE"); done.
  - destruct (all _) eqn:Hall; [|done]. exfalso. apply Hc.
    unfold all in Hall. simpl in Hall.
    repeat (apply andb_prop in Hall as [? Hall]).
    unfold id in *.
    repeat split; by apply truthy_present.
Qed.

(** X17: for every well-formed document with an element tagged exactly
    [MAPPING] strictly below its root, [parse] returns a [Mapping] built
    from the first such element; its transformations are, in document
    order, one per element tagged [TRANSFORMATION] below that element,
    and its connections are, in document order, one per element tagged
    [CONNECTOR] below it whose four addressing attributes are all present
    and non-empty (the others are left out without an error). *)
Theorem parse_transformations_and_connections limit fs path root :
  fs path = Document root →
  (∃ e, e ∈ descendants root ∧ tag e = "MAPPING") →
  ∃ mapping_elem m,
    head (elements_under root "MAPPING") = Some mapping_elem ∧
    (parse limit fs (__init__ path)).1 = inl m ∧
    Mapping.transformations m =
      transformation_of_element limit <$> elements_under mapping_elem "TRANSFORMATION" ∧
    length (Mapping.transformations m) =
      length (elements_under mapping_elem "TRANSFORMATION") ∧
    Mapping.connections m =
      connection_of_connector <$>
        filter complete_connector (elements_under mapping_elem "CONNECTOR") ∧
    length (Mapping.connections m) =
      length (filter complete_connector (elements_under mapping_elem "CONNECTOR")).
Proof.
  intros Hfs (e & He & Htag).
  destruct (parse_document limit fs (__init__ path) root) as (self' & _ & _ & Hparse);
    [done | done |].
  assert (Hin : e ∈ elements_under root "MAPPING").
  { unfold elements_under. apply list_elem_of_filter. done. }
  destruct (elements_under root "MAPPING") as [|mapping_elem rest] eqn:Hel.
  { by apply elem_of_nil in Hin. }
  exists mapping_elem. eexists. split; [done|].
  rewrite Hparse. unfold find. rewrite findall_elements_under, Hel.
  cbn [head fst]. split; [reflexivity|].
  cbn [Mapping.transformations Mapping.connections].
  rewrite _parse_transformations_map, _parse_connections_filter.
  rewrite !length_fmap. done.
Qed.

Lemma parse_transformations_and_connections_witness :
  ∃ mapping_elem m,
    head (elements_under sample_document "MAPPING") = Some mapping_elem ∧
    (parse 4300 (λ _, Document sample_document) (__init__ "m_load.xml")).1 = inl m ∧
    Mapping.transformations m =
      transformation_of_element 4300 <$> elements_under mapping_elem "TRANSFORMATION" ∧
    length (Mapping.transformations m) =
      length (elements_under mapping_elem "TRANSFORMATION") ∧
    Mapping.connections m =
      connection_of_connector <$>
        filter complete_connector (elements_under mapping_elem "CONNECTOR") ∧
    length (Mapping.connections m) =
      length (filter complete_connector (elements_under mapping_elem "CONNECTOR")).
Proof.
  apply (parse_transformations_and_connections 4300 (λ _, Document sample_document)
           "m_load.xml" sample_document).
  - reflexivity.
  - eexists. split.
    + apply list_elem_of_In. simpl. right. left. reflexivity.
    + reflexivity.
Defined.

(** C1: the code misses mapping elements it is meant to find.  A document
    whose root is the mapping element, and a document with a default
    namespace, whose mapping element is tagged [{uri}MAPPING], both
    contain a mapping element; on both [parse] raises "No MAPPING element
    found in XML" instead of returning a [Mapping]. *)
Theorem parse_misses_mapping_element :
  (mapping_element mapping_at_root ∧
   (parse 4300 (λ _, Document mapping_at_root) (__init__ "m_load.xml")).1
     = inr (ValueError "No MAPPING element found in XML")) ∧
  ((∃ e, e ∈ descendants qualified_document ∧ mapping_element e) ∧
   (parse 4300 (λ _, Document qualified_document) (__init__ "m_load.xml")).1
     = inr (ValueError "No MAPPING element found in XML")).
Proof.
  split; split.
  - by left.
  - vm_compute. reflexivity.
  - eexists. split.
    + apply list_elem_of_In. simpl. left. reflexivity.
    + right. by exists "http://www.informatica.com/powermart".
  - vm_compute. reflexivity.
Qed.

(** C2: on a well-formed document in which no element at all is a mapping
    element, [parse] raises the error "No MAPPING element found in XML"
    and returns no [Mapping]. *)
Theorem parse_no_mapping_element limit fs path root :
  fs path = Document root →
  ¬ contains_mapping_element root →
  (parse limit fs (__init__ path)).1 = inr (ValueError "No MAPPING element found in XML") ∧
  ∀ m, (parse limit fs (__init__ path)).1 ≠ inl m.
Proof.
  intros Hfs Hno.
  destruct (parse_document limit fs (__init__ path) root) as (self' & _ & _ & Hparse);
    [done | done |].
  assert (Hnone : find root "MAPPING" ∅ = None).
  { unfold find. destruct (findall root "MAPPING" ∅) as [|x l] eqn:Hl; [done|]. exfalso.
    apply Hno. exists x.
    assert (Hx : x ∈ findall root "MAPPING" ∅) by (rewrite Hl; apply list_elem_of_here).
    apply elem_of_findall in Hx as [Hx Ht]. split; [|done].
    rewrite iter_unfold. by apply list_elem_of_further. }
  rewrite Hparse, Hnone. simpl. split; [done|]. by intros m.
Qed.

Lemma parse_no_mapping_element_witness :
  (parse 4300 (λ _, Document no_mapping_document) (__init__ "empty.xml")).1
    = inr (ValueError "No MAPPING element found in XML") ∧
  ∀ m, (parse 4300 (λ _, Document no_mapping_document) (__init__ "empty.xml")).1 ≠ inl m.
Proof.
  apply (parse_no_mapping_element 4300 (λ _, Document no_mapping_document)
           "empty.xml" no_mapping_document).
  - reflexivity.
  - intros (e & He & Ht). unfold no_mapping_document in He. simpl in He.
    repeat (apply elem_of_cons in He as [-> | He]; [discriminate Ht|]).
    by apply elem_of_nil in He.
Defined.

(** ** Fields of a transformation *)

Example lookup_procedure_is_canonical :
  TRANSFORMATION_TYPES !! "Lookup Procedure" = Some "Lookup".
Proof. reflexivity. Qed.

(** C5: the type of every parsed transformation is the canonical name of
    the element's [TYPE] attribute when the table has one ("Lookup
    Procedure" becomes "Lookup"), the attribute's value unchanged when it
    has none ("CustomStep" stays "CustomStep"), and "Unknown" when the
    attribute is missing; a missing [NAME] attribute gives the name
    "Unknown". *)
Theorem transformation_type_normalized limit mapping_elem :
  Forall2 (λ e t,
             Transformation.type t =
               match attrib e !! "TYPE" with
               | Some raw => match TRANSFORMATION_TYPES !! raw with
                             | Some canonical => canonical
                             | None => raw
                             end
               | None => "Unknown"
               end ∧
             Transformation.name t =
               match attrib e !! "NAME" with
               | Some n => n
               | None => "Unknown"
               end)
          (elements_under mapping_elem "TRANSFORMATION")
          (_parse_transformations limit mapping_elem) ∧
  TRANSFORMATION_TYPES !! "Lookup Procedure" = Some "Lookup" ∧
  TRANSFORMATION_TYPES !! "CustomStep" = None ∧
  Transformation.type
    (transformation_of_element limit (mkElement "TRANSFORMATION" {[ "TYPE" := "CustomStep" ]} []))
    = "CustomStep".
Proof.
  split; [|by vm_compute].
  rewrite _parse_transformations_map. apply Forall2_fmap_r, Forall_Forall2_diag.
  apply Forall_forall. intros e _.
  unfold transformation_of_element, get_default. simpl.
  destruct (attrib e !! "TYPE") as [raw|]; simpl.
  - split; [|by destruct (attrib e !! "NAME")].
    by destruct (TRANSFORMATION_TYPES !! raw).
  - split; [by vm_compute | by destruct (attrib e !! "NAME")].
Qed.

(** ** Fields of a port *)

(** C10: every port the parser builds takes its name, datatype, nullable
    flag and port type from the element's attributes, with the defaults
    "Unknown", "string", "NOTNULL" and "INPUT" for a missing attribute;
    there is one port per port element, so a missing attribute never
    stops the parse. *)
Theorem port_defaults limit trans_elem :
  Forall2 (λ e p,
             Port.name p = default "Unknown" (attrib e !! "NAME") ∧
             Port.datatype p = default "string" (attrib e !! "DATATYPE") ∧
             Port.nullable p = default "NOTNULL" (attrib e !! "NULLABLE") ∧
             Port.port_type p = default "INPUT" (attrib e !! "PORTTYPE"))
          (elements_under trans_elem "TRANSFORMFIELD")
          (_parse_ports limit trans_elem) ∧
  (let p := port_of_element limit (mkElement "TRANSFORMFIELD" ∅ []) in
   Port.name p = "Unknown" ∧ Port.datatype p = "string" ∧
   Port.nullable p = "NOTNULL" ∧ Port.port_type p = "INPUT").
Proof.
  split; [|done].
  rewrite _parse_ports_map. apply Forall2_fmap_r, Forall_Forall2_diag.
  apply Forall_forall. by intros e _.
Qed.

(** ** Properties of a transformation *)

Lemma foldl_insert_overlay (entries : list (string * string)) (base : gmap string string) :
  foldl (λ m nv, <[nv.1 := nv.2]> m) base entries = overlay base entries.
Proof.
  unfold overlay. revert base. induction entries as [|[n v] l IH]; intros base; simpl.
  - by rewrite (left_id_L ∅ (∪)).
  - rewrite IH, reverse_cons, list_to_map_app. simpl.
    rewrite <- (assoc_L (∪)). f_equal.
    rewrite insert_empty. by rewrite <- insert_union_singleton_l.
Qed.

Lemma foldl_omap {A B C} (f : A → option B) (g : C → B → C) (body : C → A → C)
    (l : list A) (acc : C) :
  (∀ acc x, body acc x = match f x with Some y => g acc y | None => acc end) →
  foldl body acc l = foldl g acc (omap f l).
Proof.
  intros Hbody. revert acc. induction l as [|x l IH]; intros acc; [done|].
  csimpl. rewrite IH, Hbody. by destruct (f x).
Qed.

Lemma _parse_properties_overlay trans_elem :
  _parse_properties trans_elem = overlay (attrib trans_elem) (overlay_entries trans_elem).
Proof.
  unfold _parse_properties, update. rewrite (right_id_L ∅ (∪)).
  rewrite <- foldl_insert_overlay. unfold overlay_entries.
  apply foldl_omap. intros m p. unfold property_entry, get.
  destruct (attrib p !! "NAME") as [[|c n]|], (attrib p !! "VALUE") as [[|c' v]|]; simpl;
    try done; case_decide; naive_solver.
Qed.

Lemma overlay_lookup base entries k :
  overlay base entries !! k =
    match last (filter (λ nv, nv.1 = k) entries) with
    | Some nv => Some nv.2
    | None => base !! k
    end.
Proof.
  rewrite <- foldl_insert_overlay.
  induction entries as [|[n v] l IH] using rev_ind; [done|].
  rewrite foldl_app, filter_app. simpl. rewrite filter_cons, filter_nil. simpl.
  destruct (decide (n = k)) as [->|Hne].
  - rewrite lookup_insert_eq, last_snoc. done.
  - rewrite lookup_insert_ne by done. rewrite app_nil_r. apply IH.
Qed.

(** C6: the properties of every parsed transformation are the element's
    own attributes overlaid, in document order, with the name and value
    of every property element below it that has both present and not
    empty; the other property elements contribute nothing, and for a key
    that occurs several times the last overlay entry wins, over the
    earlier entries and over the attribute of that name. *)
Theorem properties_overlay limit mapping_elem :
  Forall2 (λ e t,
             Transformation.properties t = overlay (attrib e) (overlay_entries e) ∧
             ∀ k, Transformation.properties t !! k =
                    match last (filter (λ nv, nv.1 = k) (overlay_entries e)) with
                    | Some nv => Some nv.2
                    | None => attrib e !! k
                    end)
          (elements_under mapping_elem "TRANSFORMATION")
          (_parse_transformations limit mapping_elem).
Proof.
  rewrite _parse_transformations_map.
  apply Forall2_fmap_r, Forall_Forall2_diag, Forall_forall. intros e _.
  simpl. rewrite _parse_properties_overlay. split; [done|].
  intros k. apply overlay_lookup.
Qed.

(** ** The summary record *)

Lemma sources_targets_le (l : list Transformation.t) :
  length (filter (λ x, Transformation.type x = Mapping.source_type) l) +
  length (filter (λ x, Transformation.type x = Mapping.target_type) l) ≤ length l ∧
  (length (filter (λ x, Transformation.type x = Mapping.source_type) l) +
   length (filter (λ x, Transformation.type x = Mapping.target_type) l) = length l ↔
   Forall (λ x, Transformation.type x = Mapping.source_type ∨
                Transformation.type x = Mapping.target_type) l).
Proof.
  induction l as [|x l [IHle IHeq]]; simpl.
  - split; [lia|]. split; [constructor | done].
  - rewrite !filter_cons, Forall_cons.
    destruct (decide (Transformation.type x = Mapping.source_type)) as [Hs|Hs];
      destruct (decide (Transformation.type x = Mapping.target_type)) as [Ht|Ht]; simpl.
    + rewrite Hs in Ht. discriminate Ht.
    + split; [lia|]. rewrite <- IHeq. split; [intros; split; [by left | lia] | lia].
    + split; [lia|]. rewrite <- IHeq. split; [intros; split; [by right | lia] | lia].
    + split; [lia|]. split; [lia | intros [[?|?] _]; done].
Qed.

(** C7: in the summary of every mapping the source count plus the target
    count is at most the transformation count, with equality exactly when
    every transformation has type "Source Definition" or
    "Target Definition"; the sources are the transformations whose type is the
    string "Source Definition" and the targets those whose type is the
    string "Target Definition". *)
Theorem summary_sources_targets (m : Mapping.t) :
  let s := Mapping.get_summary m in
  Mapping.sources s + Mapping.targets s ≤ Mapping.total_transformations s ∧
  (Mapping.sources s + Mapping.targets s = Mapping.total_transformations s ↔
   Forall (λ x, Transformation.type x = "Source Definition" ∨
                Transformation.type x = "Target Definition")
          (Mapping.transformations m)) ∧
  (∀ x, x ∈ Mapping.get_sources m ↔
        x ∈ Mapping.transformations m ∧ Transformation.type x = "Source Definition") ∧
  (∀ x, x ∈ Mapping.get_targets m ↔
        x ∈ Mapping.transformations m ∧ Transformation.type x = "Target Definition").
Proof.
  simpl. unfold Mapping.get_sources, Mapping.get_targets.
  destruct (sources_targets_le (Mapping.transformations m)) as [Hle Heq].
  split_and!; [done | done | |]; intros x; rewrite list_elem_of_filter; tauto.
Qed.

(** ** Repeated parsing *)

Lemma parse_outcome limit fs path :
  ∃ outcome, ∀ self,
    xml_path self = path → plain_namespace self →
    (parse limit fs self).1 = outcome ∧
    xml_path (parse limit fs self).2 = path ∧
    plain_namespace (parse limit fs self).2.
Proof.
  destruct (fs path) as [| |r] eqn:Hfs.
  - exists (inr OSError). intros self <- Hns.
    unfold parse, mbind, SE_bind, gets, lift, ET_parse. by rewrite Hfs.
  - exists (inr ParseError). intros self <- Hns.
    unfold parse, mbind, SE_bind, gets, lift, ET_parse. by rewrite Hfs.
  - eexists. intros self <- Hns.
    destruct (parse_document limit fs self r Hfs Hns) as (self' & Hp & Hns' & ->).
    simpl. split_and!; [reflexivity | done | done].
Qed.

(** C8: two invocations of [parse] on the same unchanged file give the
    same result, field for field, whether the second invocation uses a
    new parser object or the one the first invocation left behind. *)
Theorem parse_deterministic limit fs path :
  let first := parse limit fs (__init__ path) in
  (parse limit fs (__init__ path)).1 = first.1 ∧
  (parse limit fs first.2).1 = first.1.
Proof.
  simpl. split; [done|].
  destruct (parse_outcome limit fs path) as (outcome & H).
  destruct (H (__init__ path)) as (H1 & Hp & Hns); [done | done |].
  destruct (H (parse limit fs (__init__ path)).2) as (H2 & _); [done | done |].
  congruence.
Qed.

(** ** The reporter's effects *)

Lemma frames_ret {A} (a : A) : frames_mapping (mret a).
Proof. intros w. exists a, []. rewrite app_nil_r. by destruct w. Qed.

Lemma frames_gets {A} (f : Reporter.World → A) : frames_mapping (gets f).
Proof. intros w. exists (f w), []. rewrite app_nil_r. by destruct w. Qed.

Lemma frames_print line : frames_mapping (Reporter.print line).
Proof. intros w. by exists tt, [line]. Qed.

Lemma frames_bind {A B} (c : SE Reporter.World A) (k : A → SE Reporter.World B) :
  frames_mapping c → (∀ a, frames_mapping (k a)) → frames_mapping (c ≫= k).
Proof.
  intros Hc Hk w. destruct (Hc w) as (a & l1 & Ha).
  destruct (Hk a {| Reporter.mapping := Reporter.mapping w;
                    Reporter.stdout := Reporter.stdout w ++ l1 |}) as (b & l2 & Hb).
  exists b, (l1 ++ l2). unfold mbind, SE_bind. rewrite Ha, Hb. simpl.
  by rewrite app_assoc.
Qed.

Lemma frames_when b (c : SE Reporter.World unit) :
  frames_mapping c → frames_mapping (when b c).
Proof. intros Hc. destruct b; [done | apply frames_ret]. Qed.

Lemma frames_for_each {A} (l : list A) (body : A → SE Reporter.World unit) :
  (∀ x, frames_mapping (body x)) → frames_mapping (for_each l body).
Proof.
  intros Hbody. induction l as [|x l IH]; simpl.
  - apply frames_ret.
  - apply frames_bind; [apply Hbody | by intros _].
Qed.

Lemma frames_print_sample_ports ports : frames_mapping (Reporter.print_sample_ports ports).
Proof.
  apply frames_when, frames_bind; [apply frames_print | intros _].
  apply frames_for_each. intros port. apply frames_print.
Qed.

Ltac frames_step :=
  lazymatch goal with
  | |- frames_mapping (Reporter.print _) => apply frames_print
  | |- frames_mapping (Reporter.print_sample_ports _) => apply frames_print_sample_ports
  | |- frames_mapping (gets _) => apply frames_gets
  | |- frames_mapping (mret _) => apply frames_ret
  | |- frames_mapping (when _ _) => apply frames_when
  | |- frames_mapping (for_each _ _) => apply frames_for_each; intros
  | |- frames_mapping (_ ≫= _) => apply frames_bind; [|intros]
  | |- frames_mapping (let '(_, _) := ?p in _) => destruct p
  | |- frames_mapping ((λ _, _) _) => cbv beta
  end.

Lemma frames_print_mapping_summary : frames_mapping Reporter.print_mapping_summary.
Proof. unfold Reporter.print_mapping_summary. repeat frames_step. Qed.

(** C9: for every mapping, printing the summary returns normally and
    leaves the [Mapping] object exactly as it was, only adding lines to
    the output; this includes the mapping with no transformations and no
    connections, whose summary record has all four counts at zero. *)
Theorem print_mapping_summary_frame (w : Reporter.World) :
  (∃ lines,
     Reporter.print_mapping_summary w =
       (inl tt, {| Reporter.mapping := Reporter.mapping w;
                   Reporter.stdout := Reporter.stdout w ++ lines |})) ∧
  (∃ lines,
     Reporter.print_mapping_summary
       {| Reporter.mapping := empty_mapping; Reporter.stdout := [] |} =
       (inl tt, {| Reporter.mapping := empty_mapping; Reporter.stdout := lines |})) ∧
  (let s := Mapping.get_summary empty_mapping in
   Mapping.total_transformations s = 0 ∧ Mapping.total_connections s = 0 ∧
   Mapping.sources s = 0 ∧ Mapping.targets s = 0).
Proof.
  split_and!; [| |done].
  - destruct (frames_print_mapping_summary w) as ([] & lines & H). by exists lines.
  - destruct (frames_print_mapping_summary
                {| Reporter.mapping := empty_mapping; Reporter.stdout := [] |})
      as ([] & lines & H).
    by exists lines.
Qed.

(** ** Export and re-reading *)

Lemma read_port_data p : Importer.read_port (Exporter.port_data p) = Some p.
Proof. destruct p as [? ? [?|] [?|] ? ? [?|]]; reflexivity. Qed.

Lemma read_connection_data c :
  Importer.read_connection (Exporter.connection_data c) = Some c.
Proof. by destruct c. Qed.

Lemma as_str_dict_json (d : gmap string string) :
  Importer.as_str_dict (json_str_dict d) = Some d.
Proof.
  unfold Importer.as_str_dict, json_str_dict.
  rewrite (mapM_fmap_Some _ _ (map_to_list d)).
  - simpl. by rewrite list_to_map_to_list.
  - by intros [k v].
Qed.

Lemma read_transformation_data t :
  Importer.read_transformation (Exporter.transformation_data t) = Some t.
Proof.
  destruct t as [name type description ports properties].
  unfold Importer.read_transformation, Exporter.transformation_data.
  cbn [Transformation.name Transformation.type Transformation.description
       Transformation.ports Transformation.properties].
  change (Importer.member "name" _) with (Some (JString name)).
  change (Importer.member "type" _) with (Some (JString type)).
  change (Importer.member "description" _) with (Some (json_opt_str description)).
  change (Importer.member "ports" _)
    with (Some (JArray (Exporter.port_data <$> ports))).
  change (Importer.member "properties" _) with (Some (json_str_dict properties)).
  cbn [mbind option_bind Importer.as_str Importer.as_list].
  rewrite (mapM_fmap_Some _ _ ports read_port_data).
  rewrite as_str_dict_json.
  by destruct description.
Qed.

Lemma read_mapping_data m : Importer.read_mapping (Exporter.data m) = Some m.
Proof.
  destruct m as [name description folder transformations connections].
  unfold Importer.read_mapping, Exporter.data.
  cbn [Mapping.name Mapping.description Mapping.folder Mapping.transformations
       Mapping.connections].
  change (Importer.member "name" _) with (Some (JString name)).
  change (Importer.member "description" _) with (Some (json_opt_str description)).
  change (Importer.member "folder" _) with (Some (json_opt_str folder)).
  change (Importer.member "transformations" _)
    with (Some (JArray (Exporter.transformation_data <$> transformations))).
  change (Importer.member "connections" _)
    with (Some (JArray (Exporter.connection_data <$> connections))).
  cbn [mbind option_bind Importer.as_str Importer.as_list].
  rewrite (mapM_fmap_Some _ _ transformations read_transformation_data).
  rewrite (mapM_fmap_Some _ _ connections read_connection_data).
  by destruct description, folder.
Qed.

Lemma json_ints_str_dict (d : gmap string string) : json_ints (json_str_dict d) = [].
Proof.
  unfold json_str_dict. cbn [json_ints].
  induction (map_to_list d) as [|kv l IH]; [done|]. csimpl. exact IH.
Qed.

Lemma json_ints_port_data p : json_ints (Exporter.port_data p) = port_numbers p.
Proof. destruct p as [? ? [?|] [?|] ? ? [?|]]; reflexivity. Qed.

Lemma json_ints_connections (l : list Connection.t) :
  flat_map json_ints (Exporter.connection_data <$> l) = [].
Proof. induction l as [|c l IH]; [done|]. csimpl. exact IH. Qed.

Lemma json_ints_ports (l : list Port.t) :
  flat_map json_ints (Exporter.port_data <$> l) = flat_map port_numbers l.
Proof.
  induction l as [|p l IH]; [done|]. rewrite fmap_cons. cbn [flat_map].
  by rewrite json_ints_port_data, IH.
Qed.

Lemma json_ints_transformation_data t :
  json_ints (Exporter.transformation_data t) = flat_map port_numbers (Transformation.ports t).
Proof.
  destruct t as [name type description ports properties].
  change (json_ints (Exporter.transformation_data _))
    with (json_ints (json_opt_str description)
          ++ flat_map json_ints (Exporter.port_data <$> ports)
          ++ json_ints (json_str_dict properties) ++ []).
  rewrite json_ints_ports, json_ints_str_dict, !app_nil_r.
  by destruct description.
Qed.

Lemma json_ints_data m : json_ints (Exporter.data m) = mapping_numbers m.
Proof.
  destruct m as [name description folder transformations connections].
  change (json_ints (Exporter.data _))
    with (json_ints (json_opt_str description) ++ json_ints (json_opt_str folder)
          ++ flat_map json_ints (Exporter.transformation_data <$> transformations)
          ++ flat_map json_ints (Exporter.connection_data <$> connections) ++ []).
  rewrite json_ints_connections, !app_nil_r. unfold mapping_numbers.
  cbn [Mapping.transformations].
  replace (json_ints (json_opt_str description)) with (@nil Z) by (by destruct description).
  replace (json_ints (json_opt_str folder)) with (@nil Z) by (by destruct folder).
  cbn [app]. induction transformations as [|t l IH]; [done|].
  rewrite fmap_cons. cbn [flat_map]. by rewrite json_ints_transformation_data, IH.
Qed.

Lemma within_digit_limit_data limit m :
  within_digit_limit limit m →
  existsb (exceeds_digit_limit limit) (json_ints (Exporter.data m)) = false.
Proof.
  unfold within_digit_limit. rewrite json_ints_data.
  induction 1 as [|n l Hn _ IH]; [done|]. cbn [existsb]. by rewrite Hn, IH.
Qed.

(** C3, as amended: for every mapping whose precision and scale values
    are within the interpreter's digit limit (at most 640 digits, or at
    most as many digits as the limit, or the limit disabled) and every
    destination that can be opened for writing, [export_to_json] returns
    normally, and re-reading the document it wrote rebuilds a mapping
    equal to the original in every field. *)
Theorem export_roundtrip limit (m : Mapping.t) (output_path : string) (w : Exporter.World) :
  Exporter.opens w output_path = None →
  within_digit_limit limit m →
  ∃ w', Exporter.export_to_json limit m output_path w = (inl tt, w') ∧
        Exporter.files w' !! output_path = Some (Exporter.Complete (Exporter.data m)) ∧
        Importer.reread limit output_path w' = Some m.
Proof.
  intros Hopen Hlimit. apply within_digit_limit_data in Hlimit.
  eexists. split.
  - unfold Exporter.export_to_json, mbind, SE_bind, Exporter.open_w, Exporter.json_dump.
    rewrite Hopen, Hlimit. reflexivity.
  - unfold Importer.reread. cbn [Exporter.files Exporter.set_file].
    rewrite lookup_insert_eq, Hlimit. split; [done|]. apply read_mapping_data.
Qed.

Lemma export_roundtrip_witness :
  ∃ w', Exporter.export_to_json 4300 sample_mapping "m_load_parsed.json" open_world
          = (inl tt, w') ∧
        Exporter.files w' !! "m_load_parsed.json"
          = Some (Exporter.Complete (Exporter.data sample_mapping)) ∧
        Importer.reread 4300 "m_load_parsed.json" w' = Some sample_mapping.
Proof.
  apply (export_roundtrip 4300 sample_mapping "m_load_parsed.json" open_world).
  - reflexivity.
  - repeat constructor.
Defined.

Lemma more_digits_than_pow (k j : nat) :
  k ≤ j → more_digits_than k (10 ^ Z.of_nat j) = true.
Proof.
  intros Hkj. unfold more_digits_than. apply Z.leb_le.
  rewrite Z.abs_eq by (apply Z.pow_nonneg; lia).
  apply Z.pow_le_mono_r; lia.
Qed.

Lemma export_beyond_limit limit (m : Mapping.t) (output_path : string) (w : Exporter.World) :
  Exporter.opens w output_path = None →
  existsb (exceeds_digit_limit limit) (json_ints (Exporter.data m)) = true →
  Exporter.export_to_json limit m output_path w =
    (inr (ValueError (digit_limit_message limit)),
     Exporter.set_file output_path Exporter.Unfinished w).
Proof.
  intros Hopen Hlimit.
  unfold Exporter.export_to_json, mbind, SE_bind, Exporter.open_w, Exporter.json_dump.
  by rewrite Hopen, Hlimit.
Qed.

Lemma long_precision_exceeds :
  existsb (exceeds_digit_limit 4300) (json_ints (Exporter.data long_precision_mapping)) = true.
Proof.
  rewrite json_ints_data.
  change (mapping_numbers long_precision_mapping) with [(10 ^ Z.of_nat 4300)%Z].
  cbn [existsb]. unfold exceeds_digit_limit.
  rewrite !more_digits_than_pow by (unfold max_str_digits_threshold; lia).
  reflexivity.
Qed.

(** C3, as stated, fails for a mapping with a precision of 4301 digits
    under the interpreter's default digit limit of 4300: the destination
    can be opened, yet [export_to_json] raises [ValueError], leaves the
    file unfinished, and re-reading it gives no mapping. *)
Lemma export_fails_on_long_precision :
  Exporter.opens open_world "m_load_parsed.json" = None ∧
  (Exporter.export_to_json 4300 long_precision_mapping "m_load_parsed.json" open_world).1
    = inr (ValueError (digit_limit_message 4300)) ∧
  Exporter.files
    (Exporter.export_to_json 4300 long_precision_mapping "m_load_parsed.json" open_world).2
    !! "m_load_parsed.json" = Some Exporter.Unfinished ∧
  Importer.reread 4300 "m_load_parsed.json"
    (Exporter.export_to_json 4300 long_precision_mapping "m_load_parsed.json" open_world).2
    = None.
Proof.
  rewrite (export_beyond_limit 4300 long_precision_mapping "m_load_parsed.json" open_world
             eq_refl long_precision_exceeds).
  cbn [fst snd]. unfold Importer.reread. cbn [Exporter.files Exporter.set_file].
  rewrite lookup_insert_eq. done.
Qed.

(** ** Numeric coercion *)

Lemma digit_value_is_digit c : is_Some (digit_value c) ↔ is_digit c.
Proof.
  unfold digit_value, is_digit.
  destruct (Nat.leb_spec 48 (nat_of_ascii c)), (Nat.leb_spec (nat_of_ascii c) 57);
    cbn [andb]; split; intros Hx; try lia; try (by eexists); by destruct Hx.
Qed.

Lemma is_underscore_eq c : is_underscore c = true ↔ c = "_"%char.
Proof.
  unfold is_underscore. rewrite Nat.eqb_eq. split; [|by intros ->].
  intros H. rewrite <- (ascii_nat_embedding c), H. reflexivity.
Qed.

Lemma digit_not_underscore c : is_digit c → is_underscore c = false.
Proof. unfold is_digit, is_underscore. intros H. apply Nat.eqb_neq. lia. Qed.

Lemma digit_not_space c : is_digit c → is_space c = false.
Proof.
  unfold is_digit, is_space. intros H.
  repeat match goal with
         | |- context [(?a <=? ?b)%nat] => destruct (Nat.leb_spec a b)
         | |- context [(?a =? ?b)%nat] => destruct (Nat.eqb_spec a b)
         end; simpl; try done; lia.
Qed.

Lemma space_not_digit c : is_space c = true → digit_value c = None ∧ is_underscore c = false.
Proof.
  intros Hs. split.
  - destruct (digit_value c) eqn:Hd; [|done].
    assert (is_digit c) as Hdig by (apply digit_value_is_digit; eauto).
    apply digit_not_space in Hdig. congruence.
  - destruct (is_underscore c) eqn:Hu; [|done].
    apply is_underscore_eq in Hu as ->. discriminate Hs.
Qed.

Lemma skip_spaces_split s : ∃ before, s = before +:+ skip_spaces s ∧ blank before.
Proof.
  induction s as [|c s (before & Heq & Hb)]; simpl.
  - by exists "".
  - destruct (is_space c) eqn:Hc.
    + exists (String c before). split; [|done].
      change (String c s = String c (before +:+ skip_spaces s)). by f_equal.
    + by exists "".
Qed.

Lemma skip_spaces_blank s : skip_spaces s = "" ↔ blank s.
Proof.
  induction s as [|c s IH]; simpl; [done|].
  destruct (is_space c); [rewrite IH; tauto|]. split; [done | by intros [? _]].
Qed.

Lemma skip_spaces_app before s : blank before → skip_spaces (before +:+ s) = skip_spaces s.
Proof. induction before as [|c b IH]; simpl; [done|]. intros [-> ?]. auto. Qed.

(** What the digit scanner has consumed when it stops. *)
Lemma scan_digits_sound s prev acc n v n' rest :
  scan_digits s prev acc n = Some (v, n', rest) →
  (prev = false ∧ s = rest ∧ n' = n) ∨
  (∃ body, s = body +:+ rest ∧
           (digit_groups body ∨
            (prev = false ∧ ∃ body', body = String "_" body' ∧ digit_groups body'))).
Proof.
  revert prev acc n. induction s as [|c s IH]; intros prev acc n; simpl.
  - destruct prev; [done|]. intros [= <- <- <-]. by left.
  - destruct (digit_value c) as [d|] eqn:Hd.
    + assert (is_digit c) as Hc by (apply digit_value_is_digit; eauto).
      intros H. right. apply IH in H as [(_ & -> & _) | (body & -> & [Hb | (_ & body' & -> & Hb)])].
      * exists (String c ""). split; [done|]. left. by constructor.
      * exists (String c body). split; [done|]. left. by constructor.
      * exists (String c (String "_" body')). split; [done|]. left. by constructor.
    + destruct (is_underscore c) eqn:Hu.
      * destruct prev; [done|]. apply is_underscore_eq in Hu as ->.
        intros H. right.
        apply IH in H as [([=] & _) | (body & -> & [Hb | ([=] & _)])].
        exists (String "_" body). split; [done|]. right. eauto.
      * destruct prev; [done|]. intros [= <- <- <-]. by left.
Qed.

(** The digit scanner reads a whole group of digits and stops at what
    follows it. *)
Lemma scan_digits_complete body after prev acc n :
  digit_groups body → blank after →
  ∃ v k, scan_digits (body +:+ after) prev acc n = Some (v, S (n + k), after).
Proof.
  intros Hb Ha. revert prev acc n.
  induction Hb as [c Hc | c s Hc Hs IH | c s Hc Hs IH]; intros prev acc n; simpl;
    apply digit_value_is_digit in Hc as [d ->].
  - exists (10 * acc + d)%Z, 0. rewrite Nat.add_0_r.
    destruct after as [|a after]; simpl; [done|].
    destruct Ha as [Ha _]. apply space_not_digit in Ha as [-> ->]. done.
  - destruct (IH false (10 * acc + d)%Z (S n)) as (v & k & ->).
    exists v, (S k). do 4 f_equal. lia.
  - destruct (IH true (10 * acc + d)%Z (S n)) as (v & k & ->).
    exists v, (S k). do 4 f_equal. lia.
Qed.

Lemma split_sign_spec s :
  ∃ sign, s = sign +:+ (split_sign s).2 ∧ (sign = "" ∨ sign = "+" ∨ sign = "-").
Proof.
  destruct s as [|c r]; [by exists ""; auto|].
  destruct (decide (c = "+"%char)) as [->|Hp]; [exists "+"; auto|].
  destruct (decide (c = "-"%char)) as [->|Hm]; [exists "-"; auto|].
  exists "". split; [|auto].
  destruct c as [[] [] [] [] [] [] [] []]; done.
Qed.

Lemma split_sign_digit c r : is_digit c → split_sign (String c r) = (false, String c r).
Proof.
  intros H. destruct c as [[] [] [] [] [] [] [] []]; try reflexivity;
    unfold is_digit in H; vm_compute in H; lia.
Qed.

Lemma convert_digits_sound limit negative s v :
  convert_digits limit negative s = Some v →
  ∃ body after, s = body +:+ after ∧ digit_groups body ∧ blank after.
Proof.
  unfold convert_digits. destruct s as [|c r]; [done|].
  destruct (is_underscore c) eqn:Hu; [done|].
  destruct (scan_digits (String c r) false 0 0) as [[[v' n] rest]|] eqn:Hscan; [|done].
  destruct (n =? 0)%nat eqn:Hn; [done|]. apply Nat.eqb_neq in Hn.
  destruct (_ && _ && _); [done|].
  destruct (skip_spaces rest) eqn:Hrest; [|done]. intros _.
  apply skip_spaces_blank in Hrest.
  apply scan_digits_sound in Hscan
    as [(_ & _ & ->) | (body & Hbody & [Hb | (_ & body' & -> & _)])]; [done | |].
  - by exists body, rest.
  - simpl in Hbody. injection Hbody as -> _. done.
Qed.

Lemma convert_digits_complete negative body after :
  digit_groups body → blank after →
  is_Some (convert_digits 0 negative (body +:+ after)).
Proof.
  intros Hbody Hafter. unfold convert_digits.
  destruct (scan_digits_complete body after false 0%Z 0 Hbody Hafter) as (v & k & ->).
  assert (∃ c r, body = String c r ∧ is_digit c) as (c & r & -> & Hdig).
  { destruct Hbody; eauto. }
  change (String c r +:+ after) with (String c (r +:+ after)). cbv iota.
  rewrite (digit_not_underscore c Hdig).
  change (S (0 + k) =? 0)%nat with false. change (0 <? 0)%nat with false.
  rewrite andb_false_r. cbn [andb].
  apply skip_spaces_blank in Hafter. rewrite Hafter. eauto.
Qed.

(** Only decimal integer literals convert. *)
Lemma py_int_sound limit s v : py_int limit s = Some v → int_literal s.
Proof.
  unfold py_int. destruct (skip_spaces_split s) as (before & Hs & Hbefore).
  destruct (split_sign_spec (skip_spaces s)) as (sign & Hs1 & Hsign).
  destruct (split_sign (skip_spaces s)) as [negative digits]. simpl in Hs1.
  intros (body & after & -> & Hbody & Hafter)%convert_digits_sound.
  exists before, sign, body, after. split_and!; try done.
  by rewrite Hs at 1; rewrite Hs1.
Qed.

Lemma groups_start body after :
  digit_groups body →
  skip_spaces (body +:+ after) = body +:+ after ∧
  split_sign (body +:+ after) = (false, body +:+ after).
Proof.
  intros Hbody.
  assert (∃ c r, body = String c r ∧ is_digit c) as (c & r & -> & Hdig).
  { destruct Hbody; eauto. }
  change (String c r +:+ after) with (String c (r +:+ after)). split.
  - cbn [skip_spaces]. by rewrite (digit_not_space c Hdig).
  - by apply split_sign_digit.
Qed.

(** Without a digit limit every decimal integer literal converts. *)
Lemma py_int_complete s : int_literal s → is_Some (py_int 0 s).
Proof.
  intros (before & sign & body & after & -> & Hbefore & Hsign & Hbody & Hafter).
  unfold py_int. rewrite skip_spaces_app by done.
  destruct (groups_start body after Hbody) as [Hskip Hsplit].
  destruct Hsign as [-> | [-> | ->]].
  - change ("" +:+ body +:+ after) with (body +:+ after).
    rewrite Hskip, Hsplit. by apply convert_digits_complete.
  - change (is_Some (convert_digits 0 false (body +:+ after))).
    by apply convert_digits_complete.
  - change (is_Some (convert_digits 0 true (body +:+ after))).
    by apply convert_digits_complete.
Qed.

Lemma abc_not_literal : ¬ int_literal "abc".
Proof. intros H. by apply py_int_complete in H as [v Hv]. Qed.

(** C4: [_safe_int] never raises: it gives null for a missing value, for
    "abc" and for every string that is not a decimal integer literal, and
    the integer 12 for "12"; every port the parser builds has its
    precision and its scale coerced this way. *)
Theorem safe_int_best_effort limit :
  _safe_int limit None = None ∧
  _safe_int limit (Some "abc") = None ∧
  _safe_int limit (Some "12") = Some 12%Z ∧
  (∀ s, ¬ int_literal s → _safe_int limit (Some s) = None) ∧
  ∀ trans_elem,
    Forall2 (λ e p,
               Port.precision p = _safe_int limit (attrib e !! "PRECISION") ∧
               Port.scale p = _safe_int limit (attrib e !! "SCALE"))
            (elements_under trans_elem "TRANSFORMFIELD")
            (_parse_ports limit trans_elem).
Proof.
  split_and!; [done | done | done | |].
  - intros s Hs. unfold _safe_int.
    destruct (py_int limit s) eqn:Hp; [|done].
    exfalso. by apply Hs, (py_int_sound limit s z).
  - intros trans_elem. rewrite _parse_ports_map.
    apply Forall2_fmap_r, Forall_Forall2_diag, Forall_forall. by intros e _.
Qed.

Lemma safe_int_best_effort_witness :
  ¬ int_literal "1.5" ∧ _safe_int 4300 (Some "1.5") = None.
Proof.
  assert (¬ int_literal "1.5") as H.
  { intros H. by apply py_int_complete in H as [v Hv]. }
  split; [exact H|].
  exact (proj1 (proj2 (proj2 (proj2 (safe_int_best_effort 4300)))) "1.5" H).
Defined.

(** * Further properties of the code *)

(** ** Lookup of a transformation by name *)

(** X1: [get_transformation_by_name] returns the first transformation of
    the mapping, in list order, that has the name, and nothing exactly
    when no transformation has it. *)
Theorem get_transformation_by_name_first (m : Mapping.t) (name : string) :
  match Mapping.get_transformation_by_name m name with
  | Some t =>
      ∃ before after,
        Mapping.transformations m = before ++ t :: after ∧
        Transformation.name t = name ∧
        Forall (λ x, Transformation.name x ≠ name) before
  | None => Forall (λ x, Transformation.name x ≠ name) (Mapping.transformations m)
  end.
Proof.
  unfold Mapping.get_transformation_by_name.
  induction (Mapping.transformations m) as [|x l IH]; simpl; [constructor|].
  destruct (decide (Transformation.name x = name)) as [Hx|Hx].
  - exists [], l. split_and!; [done | done | constructor].
  - destruct (Mapping.find_by_name name l) as [t|].
    + destruct IH as (before & after & -> & Ht & Hb).
      exists (x :: before), after. split_and!; [done | done | by constructor].
    + by constructor.
Qed.

(** ** The type breakdown *)

Lemma Counter_lookup (items : list string) (acc : gmap string nat) (k : string) :
  foldl (λ (c : gmap string nat) x, <[x := S (default 0 (c !! x))]> c) acc items !! k =
    match length (filter (λ x, x = k) items) with
    | 0 => acc !! k
    | S n => Some (default 0 (acc !! k) + S n)
    end.
Proof.
  revert acc. induction items as [|x items IH]; intros acc; [done|].
  cbn [foldl]. rewrite IH, filter_cons.
  destruct (decide (x = k)) as [->|Hne].
  - rewrite lookup_insert_eq. cbn [length].
    destruct (length (filter (λ x, x = k) items)) as [|n], (acc !! k) as [d|];
      simpl; f_equal; lia.
  - by rewrite lookup_insert_ne.
Qed.

Lemma filter_type_fmap (k : string) (l : list Transformation.t) :
  length (filter (λ x, x = k) (Transformation.type <$> l)) =
  length (filter (λ x, Transformation.type x = k) l).
Proof.
  induction l as [|x l IH]; [done|]. csimpl. rewrite !filter_cons.
  destruct (decide (Transformation.type x = k)); simpl; by rewrite IH.
Qed.

(** X2: in the type breakdown of a mapping, a type has an entry exactly
    when some transformation has that type, and the entry is the number of
    transformations of that type. *)
Theorem transformation_counts_lookup (m : Mapping.t) (k : string) :
  Mapping.get_transformation_counts m !! k =
    if decide (occurrences k m = 0) then None else Some (occurrences k m).
Proof.
  unfold Mapping.get_transformation_counts, Mapping.Counter, occurrences.
  rewrite Counter_lookup, filter_type_fmap, lookup_empty.
  by destruct (length _).
Qed.

Lemma total_count_increment (acc : gmap string nat) (x : string) :
  total_count (<[x := S (default 0 (acc !! x))]> acc) = S (total_count acc).
Proof.
  unfold total_count. destruct (acc !! x) as [v|] eqn:Hx; cbn [default from_option id].
  - rewrite <- insert_delete_eq.
    rewrite map_fold_insert_L; [| intros; cbv beta; lia | apply lookup_delete_eq].
    rewrite (map_fold_delete_L _ _ x v acc); [cbv beta; lia | intros; cbv beta; lia | done].
  - rewrite map_fold_insert_L; [cbv beta; lia | intros; cbv beta; lia | done].
Qed.

Lemma Counter_total (items : list string) (acc : gmap string nat) :
  total_count (foldl (λ (c : gmap string nat) x, <[x := S (default 0 (c !! x))]> c) acc items)
  = total_count acc + length items.
Proof.
  revert acc. induction items as [|x items IH]; intros acc; simpl; [lia|].
  rewrite IH, total_count_increment. lia.
Qed.

(** X3: the summary record is consistent: the counts of its type
    breakdown add up to its transformation count, and its source and
    target counts are the breakdown's counts for "Source Definition" and
    "Target Definition" (zero when the type has no entry). *)
Theorem summary_consistent (m : Mapping.t) :
  let s := Mapping.get_summary m in
  total_count (Mapping.transformation_counts s) = Mapping.total_transformations s ∧
  Mapping.sources s = default 0 (Mapping.transformation_counts s !! "Source Definition") ∧
  Mapping.targets s = default 0 (Mapping.transformation_counts s !! "Target Definition").
Proof.
  cbn [Mapping.get_summary Mapping.transformation_counts Mapping.total_transformations
       Mapping.sources Mapping.targets].
  split_and!.
  - unfold Mapping.get_transformation_counts, Mapping.Counter.
    rewrite Counter_total, length_fmap. unfold total_count. by rewrite map_fold_empty.
  - rewrite transformation_counts_lookup. unfold occurrences, Mapping.get_sources.
    change Mapping.source_type with "Source Definition".
    by destruct (decide _) as [->|].
  - rewrite transformation_counts_lookup. unfold occurrences, Mapping.get_targets.
    change Mapping.target_type with "Target Definition".
    by destruct (decide _) as [->|].
Qed.

(** ** Connections *)

Lemma present_default e key : present e key → default "" (attrib e !! key) ≠ "".
Proof. unfold present. by destruct (attrib e !! key). Qed.

(** X4: every connection the parser records has a non-empty name in each
    of its four fields. *)
Theorem connections_have_endpoints mapping_elem :
  Forall (λ c, Connection.from_transformation c ≠ "" ∧ Connection.from_port c ≠ "" ∧
               Connection.to_transformation c ≠ "" ∧ Connection.to_port c ≠ "")
         (_parse_connections mapping_elem).
Proof.
  rewrite _parse_connections_filter, Forall_fmap. apply Forall_forall.
  intros e [(H1 & H2 & H3 & H4) _]%list_elem_of_filter.
  cbn. split_and!; by apply present_default.
Qed.

(** ** Keys of the properties *)

Lemma last_filter_is_Some {A} (P : A → Prop) `{∀ x, Decision (P x)} (l : list A) :
  is_Some (last (filter P l)) ↔ ∃ x, x ∈ l ∧ P x.
Proof.
  split.
  - intros [x Hx]. exists x. apply and_comm. rewrite <- list_elem_of_filter.
    by apply last_Some_elem_of.
  - intros (x & Hx & HP). apply last_is_Some. intros Hnil.
    assert (x ∈ filter P l) as Hin by (rewrite list_elem_of_filter; done).
    rewrite Hnil in Hin. by apply elem_of_nil in Hin.
Qed.

(** X5: the keys of a parsed transformation's properties are exactly the
    names of the element's attributes together with the names of the
    property elements that have a non-empty name and value; no attribute
    is ever dropped. *)
Theorem properties_keys limit trans_elem (k : string) :
  is_Some (Transformation.properties (transformation_of_element limit trans_elem) !! k) ↔
  is_Some (attrib trans_elem !! k) ∨ k ∈ (overlay_entries trans_elem).*1.
Proof.
  cbn. rewrite _parse_properties_overlay, overlay_lookup.
  pose proof (last_filter_is_Some (λ nv : string * string, nv.1 = k)
                (overlay_entries trans_elem)) as Hlast.
  destruct (last _) as [nv|].
  - split; [intros _|by eauto]. right.
    destruct (proj1 Hlast) as (x & Hx & <-); [by eauto|].
    by apply list_elem_of_fmap_2.
  - split; [by left|]. intros [H|(nv & -> & Hnv)%list_elem_of_fmap]; [done|].
    destruct (proj2 Hlast) as [? [=]]. eauto.
Qed.

(** ** Normalized types *)

Lemma TRANSFORMATION_TYPES_entries raw canonical :
  TRANSFORMATION_TYPES !! raw = Some canonical →
  (raw = "Lookup Procedure" ∧ canonical = "Lookup") ∨
  (raw = canonical ∧ TRANSFORMATION_TYPES !! canonical = Some canonical).
Proof.
  intros H. unfold TRANSFORMATION_TYPES in H. apply elem_of_list_to_map_2 in H.
  repeat (apply elem_of_cons in H as [[= -> ->] | H]; [by (left + right)|]).
  by apply elem_of_nil in H.
Qed.

#[local] Arguments TRANSFORMATION_TYPES : simpl never.

Lemma type_iff_raw limit e target :
  TRANSFORMATION_TYPES !! target = Some target → target ≠ "Unknown" → target ≠ "Lookup" →
  Transformation.type (transformation_of_element limit e) = target ↔
  attrib e !! "TYPE" = Some target.
Proof.
  intros Htarget Hunk Hlk. cbn. unfold get_default.
  destruct (attrib e !! "TYPE") as [raw|]; cbn.
  - destruct (TRANSFORMATION_TYPES !! raw) as [c|] eqn:Hraw; cbn.
    + apply TRANSFORMATION_TYPES_entries in Hraw as [[-> ->] | [-> _]].
      * split; [by intros <- | intros [= <-]].
        vm_compute in Htarget. discriminate Htarget.
      * split; [by intros -> | by intros [= ->]].
    + split; [intros ->; congruence | by intros [= ->]].
  - split; [done | done].
Qed.

Lemma count_by_raw_type limit target (l : list Element) :
  TRANSFORMATION_TYPES !! target = Some target → target ≠ "Unknown" → target ≠ "Lookup" →
  length (filter (λ x, Transformation.type x = target) (transformation_of_element limit <$> l)) =
  length (filter (λ e, attrib e !! "TYPE" = Some target) l).
Proof.
  intros Htarget Hunk Hlk. induction l as [|e l IH]; [done|].
  rewrite fmap_cons, !filter_cons.
  destruct (decide (attrib e !! "TYPE" = Some target)) as [He|He];
    destruct (decide (Transformation.type (transformation_of_element limit e) = target))
      as [Ht|Ht].
  - cbn [length]. by rewrite IH.
  - exfalso. apply Ht. by apply type_iff_raw.
  - exfalso. apply He. by apply (type_iff_raw limit).
  - done.
Qed.

(** X6: a parsed transformation has the type "Source Definition" exactly
    when the element's [TYPE] attribute is "Source Definition", and the
    type "Target Definition" exactly when it is "Target Definition"; so
    the number of source transformations the parser returns is the number
    of transformation elements with that attribute value. *)
Theorem source_iff_raw_type limit mapping_elem :
  (∀ e, Transformation.type (transformation_of_element limit e) = "Source Definition" ↔
        attrib e !! "TYPE" = Some "Source Definition") ∧
  (∀ e, Transformation.type (transformation_of_element limit e) = "Target Definition" ↔
        attrib e !! "TYPE" = Some "Target Definition") ∧
  length (filter (λ x, Transformation.type x = "Source Definition")
                 (_parse_transformations limit mapping_elem)) =
  length (filter (λ e, attrib e !! "TYPE" = Some "Source Definition")
                 (elements_under mapping_elem "TRANSFORMATION")).
Proof.
  split_and!.
  - intros e. by apply type_iff_raw.
  - intros e. by apply type_iff_raw.
  - rewrite _parse_transformations_map. by apply count_by_raw_type.
Qed.

(** X7: normalizing a parsed type again changes nothing, and no parsed
    transformation has the raw type name "Lookup Procedure". *)
Theorem normalized_type_stable limit e :
  let ty := Transformation.type (transformation_of_element limit e) in
  default ty (TRANSFORMATION_TYPES !! ty) = ty ∧ ty ≠ "Lookup Procedure".
Proof.
  cbn. set (raw := get_default e "TYPE" "Unknown").
  destruct (TRANSFORMATION_TYPES !! raw) as [c|] eqn:Hraw; cbn.
  - apply TRANSFORMATION_TYPES_entries in Hraw as [[_ ->] | [_ Hc]].
    + done.
    + rewrite Hc. cbn. split; [done|]. intros ->.
      vm_compute in Hc. discriminate Hc.
  - rewrite Hraw. cbn. split; [done|]. intros ->.
    vm_compute in Hraw. discriminate Hraw.
Qed.

(** ** Nested elements *)

Lemma elem_of_descendants (a x : Element) :
  x ∈ descendants a ↔ ∃ c, c ∈ children a ∧ (x = c ∨ x ∈ descendants c).
Proof.
  unfold descendants. rewrite list_elem_of_In, in_flat_map. split.
  - intros (c & Hc & Hx). exists c. rewrite <- list_elem_of_In in Hc, Hx.
    rewrite iter_unfold in Hx. apply elem_of_cons in Hx. done.
  - intros (c & Hc & Hx). exists c. rewrite <- !list_elem_of_In.
    split; [done|]. rewrite iter_unfold. apply elem_of_cons. done.
Qed.

Lemma descendants_trans (a x y : Element) :
  x ∈ descendants a → y ∈ descendants x → y ∈ descendants a.
Proof.
  revert x y. induction a as [t at_ cs IH] using Element_tree_ind. intros x y Hx Hy.
  apply elem_of_descendants in Hx as (c & Hc & Hx).
  apply elem_of_descendants. exists c. split; [done|]. right.
  destruct Hx as [-> | Hx]; [done|].
  rewrite Forall_forall in IH. by apply (IH c Hc x y).
Qed.

(** X8: the port query descends through nested transformation elements:
    every port of a transformation element nested in another one is also
    a port of the enclosing one. *)
Theorem nested_transformation_ports limit (outer inner : Element) (p : Port.t) :
  inner ∈ descendants outer →
  p ∈ _parse_ports limit inner → p ∈ _parse_ports limit outer.
Proof.
  intros Hin. rewrite !_parse_ports_map.
  intros (e & -> & He)%list_elem_of_fmap. apply list_elem_of_fmap_2.
  unfold elements_under in *. apply list_elem_of_filter in He as [Ht He].
  apply list_elem_of_filter. split; [done|]. by apply (descendants_trans outer inner).
Qed.

Lemma nested_transformation_ports_witness :
  port_of_element 4300
    (mkElement "TRANSFORMFIELD" {[ "NAME" := "amount"; "DATATYPE" := "decimal" ]} [])
    ∈ _parse_ports 4300 outer_transformation.
Proof.
  apply (nested_transformation_ports 4300 outer_transformation inner_transformation).
  - apply list_elem_of_In. simpl. right. left. reflexivity.
  - apply list_elem_of_In. simpl. left. reflexivity.
Defined.

(** ** Namespaces *)

(** X9: for a parser with a root and no binding of the empty prefix, and
    for every plain tag name, the element queries of the parser return,
    after [_extract_namespace], exactly what the unqualified query
    returns: the recorded namespace never qualifies the tag name. *)
Theorem namespace_never_qualifies (self : InformaticaXMLParser.t) (r : Element)
    (path : string) :
  root self = Some r → plain_namespace self → plain_tag_name path →
  ∃ self', _extract_namespace self = (inl tt, self') ∧
           _find_element path self' = (inl (find r path ∅), self') ∧
           _find_all_elements path self' = (inl (findall r path ∅), self').
Proof.
  intros Hr Hns _.
  destruct (_extract_namespace_plain self r Hr Hns) as (self' & He & Hr' & _ & Hns').
  exists self'. split_and!; [done | by apply _find_element_plain |].
  unfold _find_all_elements, self_root, mbind, SE_bind, gets, mret, SE_ret.
  rewrite Hr'. cbn. rewrite (findall_no_default _ _ _ Hns').
  by destruct (bool_decide _ && _).
Qed.

Lemma namespace_never_qualifies_witness :
  ∃ self', _extract_namespace qualified_parser = (inl tt, self') ∧
           _find_element "MAPPING" self' =
             (inl (Some (mkElement "MAPPING" {[ "NAME" := "m_load" ]} [])), self') ∧
           _find_all_elements "MAPPING" self' =
             (inl [mkElement "MAPPING" {[ "NAME" := "m_load" ]} []], self').
Proof.
  refine (namespace_never_qualifies qualified_parser
            (mkElement "{http://www.informatica.com/powermart}POWERMART" ∅
               [ mkElement "MAPPING" {[ "NAME" := "m_load" ]} [] ])
            "MAPPING" eq_refl eq_refl _).
  split; [discriminate | reflexivity].
Defined.

Lemma split_head_brace_free (uri rest : string) :
  brace_free uri → split_head "}" (uri +:+ String "}" rest) = uri.
Proof.
  induction uri as [|c uri IH]; [done|]. intros (_ & Hc & Huri).
  change (String c uri +:+ String "}" rest) with (String c (uri +:+ String "}" rest)).
  cbn [split_head]. rewrite bool_decide_eq_false_2 by done. by rewrite IH.
Qed.

Lemma lstrip_brace_free (s : string) : brace_free s → lstrip "{" s = s.
Proof.
  destruct s as [|c s]; [done|]. intros (Hc & _). cbn [lstrip].
  by rewrite bool_decide_eq_false_2.
Qed.

Lemma rev_app_brace_free (s1 s2 : string) :
  brace_free s1 → brace_free s2 → brace_free (String.rev_app s1 s2).
Proof.
  revert s2. induction s1 as [|c s1 IH]; intros s2; [done|].
  intros (? & ? & ?) ?. cbn [String.rev_app]. apply IH; [done|]. by split_and!.
Qed.

Lemma rev_app_rev_app (s1 s2 s3 : string) :
  String.rev_app (String.rev_app s1 s2) s3 = String.rev_app s2 (s1 +:+ s3).
Proof.
  revert s2. induction s1 as [|c s1 IH]; intros s2; [done|].
  cbn [String.rev_app]. by rewrite IH.
Qed.

Lemma strip_brace_free (uri : string) : brace_free uri → strip "{" (String "{" uri) = uri.
Proof.
  intros Huri. unfold strip, rstrip. cbn [lstrip]. rewrite bool_decide_eq_true_2 by done.
  rewrite (lstrip_brace_free uri Huri).
  rewrite lstrip_brace_free by (by apply rev_app_brace_free).
  unfold String.rev. rewrite rev_app_rev_app. cbn [String.rev_app].
  induction uri as [|c uri IH]; [done|].
  change (String c uri +:+ "") with (String c (uri +:+ "")).
  f_equal. apply IH. by destruct Huri as (_ & _ & ?).
Qed.

(** X10: for a root tag of the form [{uri}local], with no brace inside
    [uri], [_extract_namespace] records [uri] under the prefix ["ns"],
    replacing the namespace the parser had; for a root tag that does not
    start with a brace it leaves the parser as it is. *)
Theorem extract_namespace_uri (self : InformaticaXMLParser.t) (r : Element) :
  root self = Some r →
  (∀ uri local,
     tag r = "{" +:+ uri +:+ "}" +:+ local → brace_free uri →
     _extract_namespace self = (inl tt, set_namespace {[ "ns" := uri ]} self)) ∧
  (startswith (tag r) "{" = false → _extract_namespace self = (inl tt, self)).
Proof.
  intros Hr. unfold _extract_namespace, self_root, mbind, SE_bind, modify, mret, SE_ret.
  rewrite Hr. split.
  - intros uri local Htag Huri. rewrite Htag.
    change ("{" +:+ uri +:+ "}" +:+ local) with (String "{" (uri +:+ String "}" local)).
    cbn [startswith split_head].
    rewrite (bool_decide_eq_true_2 ("{"%char = "{"%char)) by done.
    rewrite (bool_decide_eq_false_2 ("{"%char = "}"%char)) by done.
    by rewrite split_head_brace_free, strip_brace_free.
  - by intros ->.
Qed.

Lemma extract_namespace_uri_witness :
  _extract_namespace qualified_parser =
    (inl tt, set_namespace {[ "ns" := "http://www.informatica.com/powermart" ]}
               qualified_parser).
Proof.
  refine (proj1 (extract_namespace_uri qualified_parser _ eq_refl)
            "http://www.informatica.com/powermart" "POWERMART" eq_refl _).
  cbn. repeat split; discriminate.
Defined.

(** ** Outcomes of a parse *)

(** X11: [parse] raises [OSError] when the file cannot be read,
    [ParseError] when it is not well-formed, and [ValueError] when the
    document has no mapping element below its root; otherwise it returns
    a mapping whose name is the [NAME] attribute of the first mapping
    element ("Unknown" when missing), whose description is its
    [DESCRIPTION] attribute, and whose folder is the [NAME] attribute of
    the first folder element below the root of the document, wherever the
    mapping element is. *)
Theorem parse_outcome_cases limit fs path :
  let result := (parse limit fs (__init__ path)).1 in
  match fs path with
  | Unreadable => result = inr OSError
  | Malformed => result = inr ParseError
  | Document r =>
      match head (elements_under r "MAPPING") with
      | None => result = inr (ValueError "No MAPPING element found in XML")
      | Some mapping_elem =>
          ∃ m, result = inl m ∧
               Mapping.name m = default "Unknown" (attrib mapping_elem !! "NAME") ∧
               Mapping.description m = attrib mapping_elem !! "DESCRIPTION" ∧
               Mapping.folder m =
                 head (elements_under r "FOLDER") ≫= λ f, attrib f !! "NAME"
      end
  end.
Proof.
  cbn zeta. destruct (fs path) as [| |r] eqn:Hfs.
  - unfold parse, mbind, SE_bind, gets, lift, ET_parse. cbn. by rewrite Hfs.
  - unfold parse, mbind, SE_bind, gets, lift, ET_parse. cbn. by rewrite Hfs.
  - destruct (parse_document limit fs (__init__ path) r Hfs) as (self' & _ & _ & ->); [done|].
    unfold find. rewrite !findall_elements_under.
    destruct (head (elements_under r "MAPPING")) as [mapping_elem|]; [|done].
    eexists. split; [reflexivity|]. done.
Qed.

(** ** Sample ports in the report *)

Lemma for_each_print {A} (f : A → string) (l : list A) (w : Reporter.World) :
  for_each l (λ x, Reporter.print (f x)) w =
    (inl tt, {| Reporter.mapping := Reporter.mapping w;
                Reporter.stdout := Reporter.stdout w ++ (f <$> l) |}).
Proof.
  revert w. induction l as [|x l IH]; intros w.
  - cbn. rewrite app_nil_r. by destruct w.
  - cbn [for_each]. unfold mbind, SE_bind. cbn. rewrite IH. cbn.
    by rewrite <- app_assoc.
Qed.

(** X13: for a transformation without ports the report prints no sample
    section; otherwise it prints the heading and one line for each of the
    first five ports, in order, so at most six lines. *)
Theorem print_sample_ports_lines (ports : list Port.t) (w : Reporter.World) :
  ∃ lines,
    Reporter.print_sample_ports ports w =
      (inl tt, {| Reporter.mapping := Reporter.mapping w;
                  Reporter.stdout := Reporter.stdout w ++ lines |}) ∧
    lines =
      match ports with
      | [] => []
      | _ :: _ =>
          "     Sample Ports:" ::
          ((λ port, "       - " +:+ Port.name port +:+ " (" +:+ Port.datatype port +:+ ")")
             <$> take 5 ports)
      end ∧
    length lines = (if decide (ports = []) then 0 else 1 + length ports `min` 5) ∧
    length lines ≤ 6.
Proof.
  unfold Reporter.print_sample_ports. destruct ports as [|p ports].
  - exists []. cbn. rewrite app_nil_r. split_and!; [by destruct w | done | done | lia].
  - eexists. split; [|split; [reflexivity|]].
    + unfold when. rewrite bool_decide_eq_true_2 by done.
      unfold mbind, SE_bind. cbn [Reporter.print modify].
      rewrite for_each_print. cbn. by rewrite <- app_assoc.
    + rewrite decide_False by done. cbn [length]. rewrite length_fmap, length_take.
      cbn [length]. split; lia.
Qed.

(** ** Values of the numeric coercion *)

Lemma underscore_not_digit : digit_value "_" = None.
Proof. reflexivity. Qed.

Lemma scan_digits_value body after prev acc n :
  digit_groups body → blank after →
  scan_digits (body +:+ after) prev acc n
    = Some (digits_value body acc, n + digit_count body, after) ∧
  0 < digit_count body.
Proof.
  intros Hb Ha. revert prev acc n.
  induction Hb as [c Hc | c s Hc Hs IH | c s Hc Hs IH]; intros prev acc n;
    apply digit_value_is_digit in Hc as [d Hd].
  - change (String c "" +:+ after) with (String c after).
    cbn [scan_digits digits_value digit_count]. rewrite Hd. split; [|lia].
    replace (n + (1 + 0)) with (S n) by lia.
    destruct after as [|a after]; [done|]. cbn [scan_digits].
    destruct Ha as [Ha _]. by apply space_not_digit in Ha as [-> ->].
  - change (String c s +:+ after) with (String c (s +:+ after)).
    cbn [scan_digits digits_value digit_count]. rewrite Hd.
    destruct (IH false (10 * acc + d)%Z (S n)) as [-> ?]. split; [|lia].
    do 3 f_equal. lia.
  - change (String c (String "_" s) +:+ after) with (String c (String "_" (s +:+ after))).
    cbn [scan_digits digits_value digit_count]. rewrite Hd, underscore_not_digit.
    change (is_underscore "_") with true. cbn iota.
    destruct (IH true (10 * acc + d)%Z (S n)) as [-> ?]. split; [|lia].
    do 3 f_equal. lia.
Qed.

Lemma convert_digits_value limit negative body after :
  digit_groups body → blank after →
  convert_digits limit negative (body +:+ after) =
    if decide (max_str_digits_threshold < digit_count body ∧
               0 < limit ∧ limit < digit_count body)
    then None
    else Some (if negative then (- digits_value body 0)%Z else digits_value body 0%Z).
Proof.
  intros Hbody Hafter. unfold convert_digits.
  destruct (scan_digits_value body after false 0%Z 0 Hbody Hafter) as [-> Hpos].
  assert (∃ c r, body = String c r ∧ is_digit c) as (c & r & Hc & Hdig).
  { destruct Hbody; eauto. }
  rewrite Hc at 1. change (String c r +:+ after) with (String c (r +:+ after)). cbv iota.
  rewrite (digit_not_underscore c Hdig). cbn [Nat.add].
  destruct (Nat.eqb_spec (digit_count body) 0) as [?|_]; [lia|].
  apply skip_spaces_blank in Hafter. rewrite Hafter.
  destruct (decide _) as [(H1 & H2 & H3)|Hno].
  - apply Nat.ltb_lt in H1, H2, H3. by rewrite H1, H2, H3.
  - destruct (_ && _ && _) eqn:Hand; [|done]. exfalso. apply Hno.
    apply andb_prop in Hand as [Hand H3]. apply andb_prop in Hand as [H1 H2].
    by apply Nat.ltb_lt in H1, H2, H3.
Qed.

(** X14: for a decimal integer literal (white space, an optional sign,
    digit groups separated by single underscores, white space)
    [_safe_int] gives the value of its digits, negated after a minus
    sign; the one exception is a literal with more than 640 digits and
    more digits than the interpreter's digit limit, when that limit is
    enabled, which is coerced to null. *)
Theorem safe_int_of_literal limit (before sign body after : string) :
  blank before → sign = "" ∨ sign = "+" ∨ sign = "-" → digit_groups body → blank after →
  _safe_int limit (Some (before +:+ sign +:+ body +:+ after)) =
    if decide (640 < digit_count body ∧ 0 < limit ∧ limit < digit_count body)
    then None
    else Some (if decide (sign = "-") then (- digits_value body 0)%Z
               else digits_value body 0%Z).
Proof.
  intros Hbefore Hsign Hbody Hafter.
  assert (py_int limit (before +:+ sign +:+ body +:+ after) =
            convert_digits limit (bool_decide (sign = "-")) (body +:+ after)) as Hpy.
  { unfold py_int. rewrite skip_spaces_app by done.
    destruct (groups_start body after Hbody) as [Hskip Hsplit].
    destruct Hsign as [-> | [-> | ->]].
    - change ("" +:+ body +:+ after) with (body +:+ after). by rewrite Hskip, Hsplit.
    - reflexivity.
    - reflexivity. }
  unfold _safe_int. rewrite Hpy, convert_digits_value by done.
  change max_str_digits_threshold with 640.
  destruct (decide (640 < _ ∧ _ ∧ _)); [done|].
  destruct (decide (sign = "-")) as [->|Hne].
  - by rewrite bool_decide_eq_true_2.
  - by rewrite bool_decide_eq_false_2.
Qed.

Lemma safe_int_of_literal_witness : _safe_int 4300 (Some " -1_000 ") = Some (-1000)%Z.
Proof.
  refine (safe_int_of_literal 4300 " " "-" "1_000" " " _ _ _ _).
  - by split.
  - by right; right.
  - apply groups_underscore; [vm_compute; lia|].
    do 2 (apply groups_digit; [vm_compute; lia|]). apply groups_last. vm_compute; lia.
  - by split.
Defined.

(** ** The data-flow section of the report *)

Lemma ends_with_bind {A} m ending (c : SE Reporter.World A) (k : A → SE Reporter.World unit) :
  frames_mapping c → (∀ a, ends_with m ending (k a)) → ends_with m ending (c ≫= k).
Proof.
  intros Hc Hk w Hw. destruct (Hc w) as (a & l1 & Ha).
  destruct (Hk a {| Reporter.mapping := Reporter.mapping w;
                    Reporter.stdout := Reporter.stdout w ++ l1 |} Hw) as (l2 & Hb).
  exists (l1 ++ l2). unfold mbind, SE_bind. rewrite Ha, Hb. cbn.
  by rewrite <- !app_assoc.
Qed.

Lemma ends_with_gets {A} m ending (f : Mapping.t → A) (k : A → SE Reporter.World unit) :
  ends_with m ending (k (f m)) → ends_with m ending (gets (f ∘ Reporter.mapping) ≫= k).
Proof.
  intros Hk w Hw. destruct (Hk w Hw) as (l & Hl). exists l.
  unfold mbind, SE_bind, gets. cbn. by rewrite Hw.
Qed.

Lemma enumerate_length {A} (l : list A) start : length (enumerate l start) = length l.
Proof. revert start. induction l as [|x l IH]; intros start; cbn; [done|]. by rewrite IH. Qed.

Lemma enumerate_lookup {A} (l : list A) start i :
  enumerate l start !! i = pair (start + i) <$> l !! i.
Proof.
  revert start i. induction l as [|x l IH]; intros start [|i]; cbn; try done.
  - by rewrite Nat.add_0_r.
  - rewrite IH. by replace (S start + i) with (start + S i) by lia.
Qed.

Lemma for_each_ext {S A} (l : list A) (body1 body2 : A → SE S unit) :
  (∀ x, body1 x = body2 x) → for_each l body1 = for_each l body2.
Proof. intros H. induction l as [|x l IH]; [done|]. cbn. by rewrite H, IH. Qed.

Lemma data_flow_tail (connections : list Connection.t) (w : Reporter.World) :
  (for_each (enumerate (take 10 connections) 1)
     (λ '(i, conn),
        Reporter.print ("  " +:+ rjust 2 (str_nat i) +:+ ". " +:+ Connection_repr conn));;
   when (bool_decide (10 < length connections))
     (Reporter.print ("  ... and " +:+ str_nat (length connections - 10)
                        +:+ " more connections"));;
   Reporter.print (nl +:+ Reporter.rule)) w =
    (inl tt, {| Reporter.mapping := Reporter.mapping w;
                Reporter.stdout := Reporter.stdout w ++ flow_lines connections |}).
Proof.
  rewrite (for_each_ext _ _
             (λ ic : nat * Connection.t,
                Reporter.print ("  " +:+ rjust 2 (str_nat ic.1) +:+ ". "
                                  +:+ Connection_repr ic.2)))
    by (by intros [i conn]).
  unfold mbind, SE_bind at 1.
  rewrite (for_each_print
             (λ ic : nat * Connection.t,
                "  " +:+ rjust 2 (str_nat ic.1) +:+ ". " +:+ Connection_repr ic.2)).
  unfold flow_lines, when, SE_bind.
  destruct (decide (10 < length connections)) as [Hlt|Hlt].
  - rewrite bool_decide_eq_true_2 by done.
    unfold Reporter.print, modify. cbn [Reporter.mapping Reporter.stdout].
    by rewrite <- !app_assoc.
  - rewrite bool_decide_eq_false_2 by done.
    unfold Reporter.print, modify, mret, SE_ret. cbn [Reporter.mapping Reporter.stdout].
    by rewrite <- !app_assoc.
Qed.

Lemma data_flow_section (m : Mapping.t) :
  ends_with m (flow_lines (Mapping.connections m))
    (connections ← gets (Mapping.connections ∘ Reporter.mapping);
     for_each (enumerate (take 10 connections) 1)
       (λ '(i, conn),
          Reporter.print ("  " +:+ rjust 2 (str_nat i) +:+ ". " +:+ Connection_repr conn));;
     connections ← gets (Mapping.connections ∘ Reporter.mapping);
     when (bool_decide (10 < length connections))
       (Reporter.print ("  ... and " +:+ str_nat (length connections - 10)
                          +:+ " more connections"));;
     Reporter.print (nl +:+ Reporter.rule)).
Proof.
  intros w <-. exists []. rewrite app_nil_l.
  rewrite <- (data_flow_tail (Mapping.connections (Reporter.mapping w)) w).
  unfold mbind, SE_bind, gets. cbn [compose].
  rewrite (for_each_ext _ _
             (λ ic : nat * Connection.t,
                Reporter.print ("  " +:+ rjust 2 (str_nat ic.1) +:+ ". "
                                  +:+ Connection_repr ic.2)))
    by (by intros [i conn]).
  rewrite for_each_print. cbn [Reporter.mapping]. reflexivity.
Qed.

Ltac ends_with_step :=
  first
    [ apply data_flow_section
    | apply ends_with_bind; [repeat frames_step | intros] ].

Lemma print_mapping_summary_ends (m : Mapping.t) :
  ends_with m (flow_lines (Mapping.connections m)) Reporter.print_mapping_summary.
Proof. unfold Reporter.print_mapping_summary. repeat ends_with_step. Qed.

(** X15: the report always ends with the data-flow section: one numbered
    line for each of the first ten connections, in order; then, only when
    the mapping has more than ten connections, one line giving the number
    of those left out; then the closing rule. *)
Theorem report_ends_with_data_flow (w : Reporter.World) :
  let connections := Mapping.connections (Reporter.mapping w) in
  (∃ before,
     Reporter.print_mapping_summary w =
       (inl tt, {| Reporter.mapping := Reporter.mapping w;
                   Reporter.stdout := Reporter.stdout w ++ before ++ flow_lines connections |})) ∧
  length (flow_lines connections) =
    length connections `min` 10 + (if decide (10 < length connections) then 1 else 0) + 1.
Proof.
  cbn zeta. split.
  - by apply print_mapping_summary_ends.
  - unfold flow_lines. rewrite !length_app, length_fmap, enumerate_length, length_take.
    destruct (decide _); cbn [length]; lia.
Qed.

(** ** The summary of a parsed document *)

(** X16: for a document with a mapping element below its root, the summary
    of the parsed mapping counts what the document holds: as many
    transformations as there are transformation elements below the first
    mapping element, as many connections as there are complete connector
    elements below it, and as many sources and targets as there are
    transformation elements whose [TYPE] attribute is "Source Definition"
    and "Target Definition". *)
Theorem summary_of_parsed_document limit fs path r mapping_elem :
  fs path = Document r →
  head (elements_under r "MAPPING") = Some mapping_elem →
  ∃ m, (parse limit fs (__init__ path)).1 = inl m ∧
    let s := Mapping.get_summary m in
    let transformation_elements := elements_under mapping_elem "TRANSFORMATION" in
    Mapping.total_transformations s = length transformation_elements ∧
    Mapping.total_connections s =
      length (filter complete_connector (elements_under mapping_elem "CONNECTOR")) ∧
    Mapping.sources s =
      length (filter (λ e, attrib e !! "TYPE" = Some "Source Definition")
                     transformation_elements) ∧
    Mapping.targets s =
      length (filter (λ e, attrib e !! "TYPE" = Some "Target Definition")
                     transformation_elements).
Proof.
  intros Hfs Hhead.
  destruct (parse_document limit fs (__init__ path) r Hfs) as (self' & _ & _ & ->); [done|].
  unfold find. rewrite findall_elements_under, Hhead. cbn [head fst].
  eexists. split; [reflexivity|].
  cbn [Mapping.get_summary Mapping.total_transformations Mapping.total_connections
       Mapping.sources Mapping.targets Mapping.transformations Mapping.connections].
  unfold Mapping.get_sources, Mapping.get_targets.
  cbn [Mapping.transformations].
  rewrite _parse_transformations_map, _parse_connections_filter, !length_fmap.
  split_and!; [done | done | |].
  - by apply count_by_raw_type.
  - by apply count_by_raw_type.
Qed.

Lemma summary_of_parsed_document_witness :
  ∃ m, (parse 4300 (λ _, Document sample_document) (__init__ "m_load.xml")).1 = inl m ∧
       Mapping.total_transformations (Mapping.get_summary m) = 2 ∧
       Mapping.total_connections (Mapping.get_summary m) = 1 ∧
       Mapping.sources (Mapping.get_summary m) = 0 ∧
       Mapping.targets (Mapping.get_summary m) = 0.
Proof.
  exact (summary_of_parsed_document 4300 (λ _, Document sample_document) "m_load.xml"
           sample_document _ eq_refl eq_refl).
Defined.
